(** * ivre/db/elastic.py: the Elasticsearch backend of IVRE

    A shallow embedding of the schema builder ([_create_mappings]), the
    predicate builders ([search*]), the record store ([store_host], [get])
    and the aggregation builders ([distinct], [topvalues]) of
    [ivre/db/elastic.py], with the properties its specification states
    about them. *)

From stdpp Require Import gmap strings list fin_maps.
From Stdlib Require Import ZArith Lia Ascii.

#[local] Set Warnings "-register-all".
#[local] Open Scope string_scope.
#[local] Open Scope Z_scope.
#[local] Open Scope list_scope.

(** ** Python values

    The documents, request bodies and mapping trees of the module are
    JSON-shaped Python values: [None], booleans, integers, strings, lists
    and dicts with string keys.  Two dicts are equal when they hold the same
    items, whatever the insertion order, which is the equality of [gmap]. *)

Inductive pyval :=
| PNone
| PBool (b : bool)
| PInt (z : Z)
| PStr (s : string)
| PList (l : list pyval)
| PDict (d : gmap string pyval).

Abbreviation pydict := (gmap string pyval).

(** The exceptions the module's code can raise. *)
Inductive exn :=
| TypeError (msg : string)
| ValueError (msg : string)
| KeyError (key : string)
| AttributeError (msg : string).

Inductive result (A : Type) :=
| Ok (a : A)
| Raise (e : exn).
Arguments Ok {A} a.
Arguments Raise {A} e.

#[global] Instance result_ret : MRet result := fun _ a => Ok a.
#[global] Instance result_bind : MBind result := fun _ _ k r =>
  match r with
  | Ok a => k a
  | Raise e => Raise e
  end.
#[global] Instance result_fmap : FMap result := fun _ _ f r =>
  match r with
  | Ok a => Ok (f a)
  | Raise e => Raise e
  end.

Fixpoint mapM_result {A B} (f : A -> result B) (l : list A) : result (list B) :=
  match l with
  | [] => Ok []
  | a :: r => b ← f a; bs ← mapM_result f r; Ok (b :: bs)
  end.

(** ** String helpers *)

Definition dot : Ascii.ascii := "."%char.

(** [s.split('.')]: the segments between dots; never empty. *)
Fixpoint split_dot (s : string) : list string :=
  match s with
  | EmptyString => [EmptyString]
  | String c r =>
      if Ascii.eqb c dot then EmptyString :: split_dot r
      else match split_dot r with
           | h :: t => String c h :: t
           | [] => [String c EmptyString]
           end
  end.

(** ["%s.%s" % (curkey, subkey)] when [curkey] is not [None]. *)
Definition compound (curkey : option string) (subkey : string) : string :=
  match curkey with
  | Some ck => ck +:+ "." +:+ subkey
  | None => subkey
  end.

(** ** Schema Builder *)

(** The dict a reference obtained by walking [path] from [d] points to. *)
Fixpoint dict_at (path : list string) (d : pydict) : option pydict :=
  match path with
  | [] => Some d
  | k :: rest =>
      match d !! k with
      | Some (PDict sub) => dict_at rest sub
      | _ => None
      end
  end.

(** In-place update, through the reference [path], of a dict inside [d]. *)
Fixpoint update_at (path : list string) (f : pydict -> pydict) (d : pydict)
  : pydict :=
  match path with
  | [] => f d
  | k :: rest =>
      match d !! k with
      | Some (PDict sub) => <[k := PDict (update_at rest f sub)]> d
      | _ => d
      end
  end.

(** [cur.get(subkey, {}).get('type') == 'nested'] *)
Definition is_nested (cur : pydict) (subkey : string) : bool :=
  match cur !! subkey with
  | Some (PDict node) =>
      match node !! "type" with
      | Some (PStr t) => String.eqb t "nested"
      | _ => false
      end
  | _ => false
  end.

(** [node.setdefault('properties', {})] *)
Definition setdefault_properties (node : pydict) : pydict :=
  match node !! "properties" with
  | Some _ => node
  | None => <["properties" := PDict ∅]> node
  end.

(** The inner loop [for subkey in fld.split('.')[:-1]]: [cur] is kept as the
    path that leads to it from [res], so that writing through [cur] writes
    into [res] as it does in Python. *)
Fixpoint walk (segs : list string) (res : pydict) (cur : list string)
  (curkey : option string) : pydict * list string * option string :=
  match segs with
  | [] => (res, cur, curkey)
  | seg :: rest =>
      let subkey := compound curkey seg in
      if is_nested (default ∅ (dict_at cur res)) subkey
      then walk rest
             (update_at (cur ++ [subkey]) setdefault_properties res)
             (cur ++ [subkey; "properties"]) None
      else walk rest res cur (Some subkey)
  end.

(** The body of [for fld in ...]: both loops of [_create_mappings] run it,
    the first one with the type ["nested"]. *)
Definition declare (fldtype : string) (res : pydict) (fld : string) : pydict :=
  let segs := split_dot fld in
  let '(res1, cur, curkey) := walk (removelast segs) res [] None in
  let subkey := compound curkey (List.last segs EmptyString) in
  update_at cur (insert subkey (PDict {["type" := PStr fldtype]})) res1.

Definition _create_mappings (nested : list string)
  (all_mappings : list (string * list string)) : pydict :=
  let res := fold_left (declare "nested") nested ∅ in
  fold_left
    (fun res '(fldtype, fldnames) => fold_left (declare fldtype) fldnames res)
    all_mappings res.

(** The node [{"type": t}] and the node of a nested field with children. *)
Definition leaf (t : string) : pyval := PDict {["type" := PStr t]}.
Definition nested_with (props : pydict) : pyval :=
  PDict (<["properties" := PDict props]> {["type" := PStr "nested"]}).

(** The compound keys the inner loop looks up while no prefix is nested. *)
Fixpoint prefixes_from (curkey : option string) (segs : list string)
  : list string :=
  match segs with
  | [] => []
  | seg :: rest =>
      let k := compound curkey seg in k :: prefixes_from (Some k) rest
  end.

Definition dotted_prefixes (fld : string) : list string :=
  prefixes_from None (removelast (split_dot fld)).

(** No path of [l] lies below another path of [l]: none of the compound
    keys looked up on the way to a path is itself a path of [l]. *)
Definition unrelated (l : list string) : bool :=
  forallb (fun fld =>
             forallb (fun p => negb (bool_decide (p ∈ l)))
                     (dotted_prefixes fld)) l.

(** Every path of [l] comes after the paths of [l] it lies below: no path
    is followed by one of the compound keys looked up on the way to it. *)
Fixpoint ancestors_first (l : list string) : bool :=
  match l with
  | [] => true
  | fld :: rest =>
      (forallb (fun later => negb (bool_decide (later ∈ dotted_prefixes fld)))
               rest
       && ancestors_first rest)%bool
  end.

(** [".".join(segs)] *)
Fixpoint join_dot (segs : list string) : string :=
  match segs with
  | [] => EmptyString
  | [seg] => seg
  | seg :: rest => seg +:+ "." +:+ join_dot rest
  end.

(** The tree in which every path of [l] is a key of its own. *)
Definition flat_tree (fldtype : string) (l : list string) (res : pydict)
  : pydict :=
  fold_left (fun res fld => <[fld := leaf fldtype]> res) l res.

(** The key accumulated over [segs] when no prefix is nested. *)
Definition accumulate (curkey : option string) (segs : list string)
  : option string :=
  fold_left (fun ck seg => Some (compound ck seg)) segs curkey.

(** The key written at the end of the loop body when no prefix is
    nested. *)
Definition final_key (curkey : option string) (segs : list string)
  (last : string) : string :=
  compound (accumulate curkey segs) last.

(** [f] applied to [node.setdefault('properties', {})], in place. *)
Definition props_run (f : pydict -> pydict) (node : pydict) : pydict :=
  match node !! "properties" with
  | Some (PDict props) => <["properties" := PDict (f props)]> node
  | Some _ => node
  | None => <["properties" := PDict (f ∅)]> node
  end.

(** The loop body again, by recursion on the dict [cur] points to rather
    than through the path that leads to it; [declare_in_spec] shows that it
    is [declare]. *)
Fixpoint declare_in (fldtype last : string) (segs : list string)
  (curkey : option string) (cur : pydict) : pydict :=
  match segs with
  | [] => <[compound curkey last := PDict {["type" := PStr fldtype]}]> cur
  | seg :: rest =>
      let subkey := compound curkey seg in
      if is_nested cur subkey then
        match cur !! subkey with
        | Some (PDict node) =>
            <[subkey := PDict (props_run (declare_in fldtype last rest None)
                                 node)]> cur
        | _ => cur
        end
      else declare_in fldtype last rest (Some subkey) cur
  end.

(** ** Queries

    A predicate is the expression the module builds with elasticsearch_dsl:
    [Q()], [Q(name, field=value)], [Q('nested', path=..., query=...)] and
    the operators [&], [|] and [~].  The library is not part of the
    repository; its values are kept as the expressions the source writes.
    A keyword argument such as [infos__as_num] names the field
    [infos.as_num]. *)

Inductive Query :=
| MatchAll
| Q (name field : string) (value : pyval)
| Nested (path : string) (query : Query)
| And (q1 q2 : Query)
| Or (q1 q2 : Query)
| Not (q : Query).

(** A compiled regular expression ([utils.REGEXP_T]). *)
Record regexp := { re_pattern : string; re_flags : Z }.

(** An argument that is either a plain string or a regular expression. *)
Inductive strpat :=
| Lit (s : string)
| Re (r : regexp).

(** A value of a [values] mapping: a regular expression or a plain value. *)
Inductive field_value :=
| FRe (r : regexp)
| FVal (v : pyval).

(** The [values] argument of [searchscript]: a query, a string, a regular
    expression, or a mapping given by its items in iteration order. *)
Inductive script_values :=
| VQuery (q : Query)
| VStr (s : string)
| VRe (r : regexp)
| VItems (items : list (string * field_value)).

(** *** Python's [int()] *)

Definition is_space (c : Ascii.ascii) : bool :=
  let n := nat_of_ascii c in
  (Nat.eqb n 32 || (Nat.leb 9 n && Nat.leb n 13))%bool.

Definition digit_of (c : Ascii.ascii) : option Z :=
  let n := nat_of_ascii c in
  if (Nat.leb 48 n && Nat.leb n 57)%bool then Some (Z.of_nat n - 48) else None.

Fixpoint lstrip (s : string) : string :=
  match s with
  | String c r => if is_space c then lstrip r else s
  | EmptyString => EmptyString
  end.

Fixpoint string_rev_onto (acc s : string) : string :=
  match s with
  | EmptyString => acc
  | String c r => string_rev_onto (String c acc) r
  end.

(** [s[::-1]] on a string. *)
Definition string_rev (s : string) : string := string_rev_onto EmptyString s.

Definition strip (s : string) : string :=
  string_rev (lstrip (string_rev (lstrip s))).

(** Decimal digits, single underscores allowed between two digits. *)
Fixpoint parse_digits (acc : Z) (after_digit : bool) (s : string) : option Z :=
  match s with
  | EmptyString => if after_digit then Some acc else None
  | String c r =>
      match digit_of c with
      | Some d => parse_digits (10 * acc + d) true r
      | None =>
          if (Ascii.eqb c "_"%char && after_digit)%bool
          then parse_digits acc false r
          else None
      end
  end.

Definition parse_int (s : string) : option Z :=
  match strip s with
  | String c r =>
      if Ascii.eqb c "-"%char then Z.opp <$> parse_digits 0 false r
      else if Ascii.eqb c "+"%char then parse_digits 0 false r
      else parse_digits 0 false (String c r)
  | EmptyString => None
  end.

(** A character of a string on which every version of Python reads
    integers alike: printable ASCII or the white space from tab to carriage
    return, and no underscore. *)
Definition plain_char (c : Ascii.ascii) : bool :=
  let n := nat_of_ascii c in
  ((Nat.leb 32 n && Nat.leb n 126 || Nat.leb 9 n && Nat.leb n 13)
   && negb (Ascii.eqb c "_"%char))%bool.

Fixpoint plain_ascii (s : string) : bool :=
  match s with
  | EmptyString => true
  | String c r => (plain_char c && plain_ascii r)%bool
  end.

(** What the module imports from the rest of IVRE ([ivre.utils],
    [ivre.xmlnmap], [ivre.db.DBActive]) and from Python. *)
Class Utils := {
  (** [utils.regexp2pattern] *)
  regexp2pattern : regexp -> string * Z;
  (** [utils.country_unalias] *)
  country_unalias : pyval -> pyval;
  (** [xmlnmap.ALIASES_TABLE_ELEMS] *)
  ALIASES_TABLE_ELEMS : gmap string string;
  (** [utils.all2datetime] *)
  all2datetime : pyval -> pyval;
  (** [DBActive.datetime_fields] *)
  datetime_fields : list string;
  (** ["%s" % r] for a compiled regular expression [r] *)
  regexp_str : regexp -> string;
  (** [int(s)] for a string [s]: the integer read, [None] when [int]
      raises its [ValueError] *)
  int_literal : string -> option Z;
  (** on plain ASCII [int] reads a base-10 literal *)
  int_literal_plain :
    forall s, plain_ascii s = true -> int_literal s = parse_int s;
  (** [float(s)] for a string [s]: the number read, [None] when [float]
      raises its [ValueError] *)
  float_literal : string -> option pyval;
  (** [n / 1000] for an integer [n] *)
  int_div1000 : Z -> pyval;
  (** the keys of a dict in the order in which Python iterates over it:
      the order of insertion, which the map does not record, so that any
      order is allowed *)
  dict_keys : pydict -> list string;
  dict_keys_perm : forall d, dict_keys d ≡ₚ (map_to_list d).*1;
}.

(** [int(v)]: a number is kept, a string is read by [int_literal]
    ([ValueError] when it is no literal), anything else is a
    [TypeError]. *)
Definition py_int `{Utils} (v : pyval) : result Z :=
  match v with
  | PInt z => Ok z
  | PBool b => Ok (if b then 1 else 0)
  | PStr s =>
      match int_literal s with
      | Some z => Ok z
      | None => Raise (ValueError "invalid literal for int() with base 10")
      end
  | _ => Raise (TypeError "int() argument must be a string or a number")
  end.

(** [value / 1000]: a [TypeError] for what is not a number. *)
Definition div1000 `{Utils} (value : pyval) : result pyval :=
  match value with
  | PInt z => Ok (int_div1000 z)
  | PBool b => Ok (int_div1000 (if b then 1 else 0))
  | _ => Raise (TypeError "unsupported operand type(s) for /")
  end.

(** [s.split(', ')] *)
Fixpoint split_comma_space (s : string) : list string :=
  match s with
  | EmptyString => [EmptyString]
  | String c r =>
      match r with
      | String c' r' =>
          if (Ascii.eqb c ","%char && Ascii.eqb c' " "%char)%bool
          then EmptyString :: split_comma_space r'
          else match split_comma_space r with
               | h :: t => String c h :: t
               | [] => [String c EmptyString]
               end
      | EmptyString => [String c EmptyString]
      end
  end.

(** [tuple(float(v) for v in value.split(', '))]: an [AttributeError] for a
    value that is not a string, the [ValueError] of [float] for a part that
    is no number; the tuple is given as the list of its components. *)
Definition parse_coordinates `{Utils} (value : pyval) : result pyval :=
  match value with
  | PStr s =>
      floats ← mapM_result
                 (fun v => match float_literal v with
                           | Some f => Ok f
                           | None =>
                               Raise (ValueError
                                 "could not convert string to float")
                           end)
                 (split_comma_space s);
      Ok (PList floats)
  | _ => Raise (AttributeError "object has no attribute 'split'")
  end.

(** ** Predicate Builder *)

Section Predicates.
Context `{Utils}.

Definition flt_empty : Query := MatchAll.

Definition searchnonexistent : Query := Q "match" "_id" (PInt 0).

Definition searchhost (addr : pyval) (neg : bool) : Query :=
  Q "match" "addr" addr.

(** The body of [searchhosts] is [pass]: it returns [None]. *)
Definition searchhosts (hosts : pyval) (neg : bool) : option Query := None.

(** The warning [_get_pattern] logs for unsupported flags is not a value of
    the program and is left out. *)
Definition _get_pattern (r : regexp) : string := fst (regexp2pattern r).

Definition _flt_and (cond1 cond2 : Query) : Query := And cond1 cond2.
Definition _flt_or (cond1 cond2 : Query) : Query := Or cond1 cond2.

(** Modelled from the spec: [DB.flt_and] of the base class, which is not in
    this file; the specification's Query Composer [and(p1, p2)] combines two
    predicates with the backend's [_flt_and]. *)
Definition flt_and (cond1 cond2 : Query) : Query := _flt_and cond1 cond2.

Definition negate_if (neg : bool) (res : Query) : Query :=
  if neg then Not res else res.

Definition searchhaslocation (neg : bool) : Query :=
  let res := Q "exists" "field" (PStr "infos.coordinates") in
  negate_if neg res.

Definition searchcountry (country : pyval) (neg : bool) : Query :=
  let country := country_unalias country in
  let res :=
    match country with
    | PList _ => Q "terms" "infos.country_code" country
    | _ => Q "match" "infos.country_code" country
    end in
  negate_if neg res.

(** The values [for val in asnum] ranges over when [asnum] is not a string
    and has [__iter__]; iterating a dict gives its keys. *)
Definition iter_values (asnum : pyval) : option (list pyval) :=
  match asnum with
  | PList l => Some l
  | PDict d => Some (PStr <$> dict_keys d)
  | _ => None
  end.

Definition searchasnum (asnum : pyval) (neg : bool) : result Query :=
  res ← match iter_values asnum with
        | Some vals =>
            nums ← mapM_result py_int vals;
            Ok (Q "terms" "infos.as_num" (PList (PInt <$> nums)))
        | None =>
            num ← py_int asnum;
            Ok (Q "match" "infos.as_num" (PInt num))
        end;
  Ok (negate_if neg res).

Definition searchasname (asname : strpat) (neg : bool) : Query :=
  let res :=
    match asname with
    | Re r => Q "regexp" "infos.as_name" (PStr (_get_pattern r))
    | Lit s => Q "match" "infos.as_name" (PStr s)
    end in
  negate_if neg res.

(** An element of the list [req] of [searchscript]: a triple or a query. *)
Inductive subreq :=
| Triple (kind field : string) (value : pyval)
| SubQuery (q : Query).

Definition strpat_req (field : string) (arg : strpat) : subreq :=
  match arg with
  | Re r => Triple "regexp" field (PStr (_get_pattern r))
  | Lit s => Triple "match" field (PStr s)
  end.

(** [xmlnmap.ALIASES_TABLE_ELEMS.get(name, name)], as the ["%s"] formatting
    that every use of [subfield] applies to it shows it. *)
Definition subfield_of (name : strpat) : string :=
  match name with
  | Lit s => default s (ALIASES_TABLE_ELEMS !! s)
  | Re r => regexp_str r
  end.

Definition values_req (subfield : string) (values : script_values)
  : list subreq :=
  match values with
  | VQuery q => [SubQuery q]
  | VStr s => [Triple "match" subfield (PStr s)]
  | VRe r => [Triple "regexp" subfield (PStr (_get_pattern r))]
  | VItems items =>
      (fun '(field, value) =>
         match value with
         | FRe r =>
             Triple "regexp" (subfield +:+ "." +:+ field) (PStr (_get_pattern r))
         | FVal v => Triple "match" (subfield +:+ "." +:+ field) v
         end) <$> items
  end.

(** The first part of [searchscript]: the list [req]; no query is built
    here, the query given as [values] is appended as it is. *)
Definition searchscript_req (name output : option strpat)
  (values : option script_values) : result (list subreq) :=
  let req := [] in
  let req := match name with
             | Some n => req ++ [strpat_req "id" n]
             | None => req
             end in
  let req := match output with
             | Some o => req ++ [strpat_req "output" o]
             | None => req
             end in
  match values with
  | Some v =>
      match name with
      | None =>
          Raise (TypeError
            ".searchscript() needs a `name` arg when using a `values` arg")
      | Some n => Ok (req ++ values_req (subfield_of n) v)
      end
  | None => Ok req
  end.

Definition subreq_query (s : subreq) : Query :=
  match s with
  | SubQuery q => q
  | Triple kind field value => Q kind ("ports.scripts." +:+ field) value
  end.

(** [query = Q()] then [query &= ...] for each element of [req]. *)
Definition conjoin (req : list subreq) : Query :=
  fold_left (fun query s => And query (subreq_query s)) req MatchAll.

Definition script_exists : Query :=
  Nested "ports"
    (Nested "ports.scripts" (Q "exists" "field" (PStr "ports.scripts"))).

Definition searchscript (name output : option strpat)
  (values : option script_values) (neg : bool) : result Query :=
  req ← searchscript_req name output values;
  let res :=
    match req with
    | [] => script_exists
    | _ => Nested "ports" (Nested "ports.scripts" (conjoin req))
    end in
  Ok (negate_if neg res).

End Predicates.

(** ** Record Store *)

(** [key in container] for the containers a document can hold. *)
Definition py_contains (key : string) (container : pyval) : result bool :=
  match container with
  | PDict d => Ok (bool_decide (is_Some (d !! key)))
  | PStr s =>
      Ok (match String.index 0 key s with Some _ => true | None => false end)
  | PList l =>
      Ok (existsb (fun v => match v with
                            | PStr s => String.eqb s key
                            | _ => false
                            end) l)
  | _ => Raise (TypeError "argument is not iterable")
  end.

(** [value[::-1]] *)
Definition py_reversed (value : pyval) : result pyval :=
  match value with
  | PList l => Ok (PList (rev l))
  | PStr s => Ok (PStr (string_rev s))
  | _ => Raise (TypeError "object is not subscriptable")
  end.

(** [if 'coordinates' in host.get('infos', {}):
        host['infos']['coordinates'] = host['infos']['coordinates'][::-1]]
    The assignment goes through [host['infos']], the dict that [host]
    holds, so it is [host] that changes. *)
Definition flip_coordinates (host : pydict) : result pydict :=
  let infos := default (PDict ∅) (host !! "infos") in
  present ← py_contains "coordinates" infos;
  if present : bool then
    match infos with
    | PDict d =>
        match d !! "coordinates" with
        | Some coords =>
            flipped ← py_reversed coords;
            Ok (<["infos" := PDict (<["coordinates" := flipped]> d)]> host)
        | None => Raise (KeyError "coordinates")
        end
    | _ => Raise (TypeError "indices must be integers")
    end
  else Ok host.

(** A record of the index: the identifier the engine assigned and the
    indexed body. *)
Record hit := { _id : string; _source : pydict }.

(** The engine behind [db_client.index] and [helpers.scan]: an index is the
    list of its records; which documents a query matches, which identifier
    a new record gets and what a [_source] filter keeps are the engine's. *)
Class Engine := {
  matches : Query -> pydict -> bool;
  new_id : list hit -> string;
  source_filter : pyval -> pydict -> pydict;
}.

Section RecordStore.
Context `{Utils} `{Engine}.

(** [db_client.index(index=..., body=host)] *)
Definition index_doc (idx : list hit) (body : pydict) : list hit :=
  idx ++ [{| _id := new_id idx; _source := body |}].

(** [helpers.scan(db_client, query=query, ...)] with
    [query = {"query": spec.to_dict()}] and, when [fields] is given,
    [query['_source'] = fields]. *)
Definition scan (idx : list hit) (spec : Query) (fields : option pyval)
  : list hit :=
  (fun rec =>
     {| _id := _id rec;
        _source := match fields with
                   | Some f => source_filter f (_source rec)
                   | None => _source rec
                   end |})
  <$> filter (fun rec => matches spec (_source rec) = true) idx.

(** [store_host]: the host after the call, which is also the indexed body,
    and the index after the call. *)
Definition store_host (host : pydict) (idx : list hit)
  : result (pydict * list hit) :=
  host ← flip_coordinates host;
  Ok (host, index_doc idx host).

(** [if field in host: host[field] = utils.all2datetime(host[field])] *)
Definition decode_datetime (host : pydict) (field : string) : pydict :=
  match host !! field with
  | Some v => <[field := all2datetime v]> host
  | None => host
  end.

(** The body of the loop of [get]. *)
Definition get_host (rec : hit) : result pydict :=
  let host := <["_id" := PStr (_id rec)]> (_source rec) in
  host ← flip_coordinates host;
  Ok (fold_left decode_datetime datetime_fields host).

(** What a generator produced: the values it yielded and the exception that
    ended it, if one did. *)
Fixpoint yield_each {A B} (f : A -> result B) (l : list A)
  : list B * option exn :=
  match l with
  | [] => ([], None)
  | a :: rest =>
      match f a with
      | Ok b => let '(bs, e) := yield_each f rest in (b :: bs, e)
      | Raise e => ([], Some e)
      end
  end.

Definition get (spec : Query) (fields : option pyval) (idx : list hit)
  : list pydict * option exn :=
  yield_each get_host (scan idx spec fields).

End RecordStore.

(** ** Aggregation Engine *)

Definition PAGESIZE : Z := 250.

(** The body of a [db_client.search] request: [{"query": flt.to_dict(),
    "aggs": aggs}]. *)
Record search_body := { body_query : Query; body_aggs : pydict }.

(** A bucket of a response, read at the keys the code reads: [key] is
    [value['key'][field]] for a composite aggregation and [res['key']] for a
    terms aggregation. *)
Record bucket := { key : pyval; doc_count : Z }.

(** [result["aggregations"]["values"]] of a composite aggregation. *)
Record page := { buckets : list bucket; after_key : option pyval }.

(** [result["aggregations"]] of a terms aggregation: the buckets lie under
    any number of ["patterns"] levels. *)
Inductive aggregations :=
| Buckets (bs : list bucket)
| Patterns (inner : aggregations).

(** [db_client.search]: the engine has a state of its own and answers a
    request with the part of the response the caller reads. *)
Class Client (S : Type) := {
  search_composite : S -> search_body -> S * page;
  search_terms : S -> search_body -> S * aggregations;
}.

Section Distinct.
Context `{Utils} {S : Type} `{Client S}.

Definition fix_result (field : string) (value : pyval) : result pyval :=
  if String.eqb field "infos.coordinates" then parse_coordinates value
  else if bool_decide (field ∈ datetime_fields)
       then seconds ← div1000 value; Ok (all2datetime seconds)
  else Ok value.

Definition distinct_base_query (field : string) : pydict :=
  if String.eqb field "infos.coordinates" then
    {["script" := PDict (<["lang" := PStr "painless"]>
        {["source" := PStr "doc['infos.coordinates'].value"]})]}
  else {["field" := PStr field]}.

Definition distinct_flt (field : string) (flt : option Query) : Query :=
  let flt := default flt_empty flt in
  if String.eqb field "infos.coordinates"
  then flt_and flt (searchhaslocation false)
  else flt.

(** [{"size": PAGESIZE, "sources": [{field: {"terms": base_query}}]}] *)
Definition composite_query (field : string) : pydict :=
  <["size" := PInt PAGESIZE]>
    {["sources" :=
        PList [PDict {[field :=
                 PDict {["terms" := PDict (distinct_base_query field)]}]}]]}.

Definition composite_body (flt : Query) (query : pydict) : search_body :=
  {| body_query := flt;
     body_aggs := {["values" := PDict {["composite" := PDict query]}]} |}.

(** How a run of the generator ended: at its end, stopped by the bound on
    the number of requests, or by an exception. *)
Inductive ending :=
| Exhausted
| Suspended
| Raised (e : exn).

(** What a run did: the requests it sent and the responses it got, the
    values it yielded, the state it left the engine in and how it ended. *)
Record run := {
  requests : list search_body;
  responses : list page;
  yielded : list pyval;
  engine : S;
  ended : ending;
}.

(** [yield fix_result(value['key'][field])] for each bucket of a page: the
    values yielded and the exception that stopped the page, if any. *)
Definition page_values (field : string) (result : page)
  : list pyval * option exn :=
  yield_each (fun value => fix_result field (key value)) (buckets result).

(** The run that follows a page: the one an exception ends, the one a
    response without [after_key] ends, or the rest of the loop. *)
Definition after_page (body : search_body) (result : page) (st' : S)
  (values : list pyval * option exn) (rest : pyval -> run) : run :=
  match values.2 with
  | Some e =>
      {| requests := [body]; responses := [result]; yielded := values.1;
         engine := st'; ended := Raised e |}
  | None =>
      match after_key result with
      | None =>
          {| requests := [body]; responses := [result]; yielded := values.1;
             engine := st'; ended := Exhausted |}
      | Some after =>
          let r := rest after in
          {| requests := body :: requests r;
             responses := result :: responses r;
             yielded := values.1 ++ yielded r;
             engine := engine r;
             ended := ended r |}
      end
  end.

(** A generator that pages through a composite aggregation and yields
    [convert value] for each bucket, for at most [n] requests: [query] is
    the dict the loop updates with [query["after"] = ...]. *)
Fixpoint paged_loop (convert : bucket -> result pyval) (n : nat)
  (flt : Query) (query : pydict) (st : S) : run :=
  match n with
  | O => {| requests := []; responses := []; yielded := []; engine := st;
            ended := Suspended |}
  | Datatypes.S n' =>
      let body := composite_body flt query in
      let '(st', result) := search_composite st body in
      after_page body result st' (yield_each convert (buckets result))
        (fun after =>
           paged_loop convert n' flt (<["after" := after]> query) st')
  end.

(** The loop [while True] of [distinct], for at most [n] requests. *)
Fixpoint distinct_loop (n : nat) (field : string) (flt : Query)
  (query : pydict) (st : S) : run :=
  match n with
  | O => {| requests := []; responses := []; yielded := []; engine := st;
            ended := Suspended |}
  | Datatypes.S n' =>
      let body := composite_body flt query in
      let '(st', result) := search_composite st body in
      after_page body result st' (page_values field result)
        (fun after =>
           distinct_loop n' field flt (<["after" := after]> query) st')
  end.

(** The response to the request number [k] of the loop, or the last
    response when the loop ends before. *)
Fixpoint page_at (k : nat) (flt : Query) (query : pydict) (st : S) : page :=
  let '(st', result) := search_composite st (composite_body flt query) in
  match k, after_key result with
  | Datatypes.S k', Some after =>
      page_at k' flt (<["after" := after]> query) st'
  | _, _ => result
  end.

Definition distinct (n : nat) (field : string) (flt : option Query) (st : S)
  : run :=
  distinct_loop n field (distinct_flt field flt) (composite_query field) st.

(** The composite query of a request body:
    [body["aggs"]["values"]["composite"]]. *)
Definition composite_of (body : search_body) : option pydict :=
  match body_aggs body !! "values" with
  | Some (PDict values) =>
      match values !! "composite" with
      | Some (PDict query) => Some query
      | _ => None
      end
  | _ => None
  end.

End Distinct.

(** *** topvalues *)

(** [s[n:]] *)
Fixpoint string_drop (n : nat) (s : string) : string :=
  match n, s with
  | O, _ => s
  | Datatypes.S n', String _ r => string_drop n' r
  | Datatypes.S _, EmptyString => EmptyString
  end.

(** [s.split(sep, 1)] for a separator that is not empty. *)
Fixpoint split1 (sep s : string) : list string :=
  if String.prefix sep s then [EmptyString; string_drop (String.length sep) s]
  else match s with
       | EmptyString => [EmptyString]
       | String c r =>
           match split1 sep r with
           | h :: t => String c h :: t
           | [] => [String c EmptyString]
           end
       end.

(** [s.lower()] on a byte string: the letters [A] to [Z] are lowered, every
    other byte is kept. *)
Definition lower_char (c : Ascii.ascii) : Ascii.ascii :=
  let n := nat_of_ascii c in
  if (Nat.leb 65 n && Nat.leb n 90)%bool then ascii_of_nat (n + 32) else c.

Fixpoint lower (s : string) : string :=
  match s with
  | EmptyString => EmptyString
  | String c r => String (lower_char c) (lower r)
  end.

Definition script_as : string :=
  "doc['infos.as_num'].value + ', ' + doc['infos.as_name'].value".

Definition script_port : string :=
"List result = new ArrayList();
for(item in params._source.ports) {
    if(item.port != -1) {
        result.add(item.protocol + '/' + item.port);
    }
}
return result;
".

Definition script_port_match : string :=
"List result = new ArrayList();
for(item in params._source.ports) {
    if(item[params.field] == params.value) {
        result.add(item.protocol + '/' + item.port);
    }
}
return result;
".

Definition script_httphdr : string :=
"List result = new ArrayList();
for(item in params._source.ports) {
    if (item.containsKey('scripts')) {
        for(script in item.scripts) {
            if(script.id == 'http-headers' &&
               script.containsKey('http-headers')) {
                for(hdr in script['http-headers']) {
                    result.add(hdr.name + ':' + hdr.value);
                }
            }
        }
    }
}
return result;
".

Definition script_httphdr_name : string :=
"List result = new ArrayList();
for(item in params._source.ports) {
    if (item.containsKey('scripts')) {
        for(script in item.scripts) {
            if(script.id == 'http-headers' &&
               script.containsKey('http-headers')) {
                for(hdr in script['http-headers']) {
                    if (hdr.name == params.name) {
                        result.add(hdr.value);
                    }
                }
            }
        }
    }
}
return result;
".

(** [{"script": {"lang": "painless", "source": source}}], with
    ["params"] when the script has parameters. *)
Definition painless (source : string) (params : option pydict) : pydict :=
  let script : pydict :=
    <["lang" := PStr "painless"]> {["source" := PStr source]} in
  {["script" := PDict match params with
                      | Some p => <["params" := PDict p]> script
                      | None => script
                      end]}.

(** [value.split(sep, 1)] on a bucket key. *)
Definition key_split1 (sep : string) (value : pyval) : result (list string) :=
  match value with
  | PStr s => Ok (split1 sep s)
  | _ => Raise (AttributeError "object has no attribute 'split'")
  end.

(** The three [outputproc] functions; a tuple is given as the list of its
    components. *)
Definition outputproc_as `{Utils} (value : pyval) : result pyval :=
  parts ← key_split1 ", " value;
  match parts with
  | [] => Ok (PList [])
  | val :: rest =>
      n ← py_int (PStr val);
      Ok (PList (PInt n :: (PStr <$> rest)))
  end.

Definition outputproc_port `{Utils} (value : pyval) : result pyval :=
  parts ← key_split1 "/" value;
  match parts with
  | [] => Ok (PList [])
  | val :: rest =>
      nums ← mapM_result (fun v => py_int (PStr v)) rest;
      Ok (PList (PStr val :: (PInt <$> nums)))
  end.

Definition outputproc_httphdr (value : pyval) : result pyval :=
  parts ← key_split1 ":" value;
  Ok (PList (PStr <$> parts)).

(** What the dispatch on the pseudo-field sets: [flt], [field], [nested] and
    [outputproc]. *)
Record dispatch := {
  d_flt : Query;
  d_field : pydict;
  d_nested : option pydict;
  d_outputproc : option (pyval -> result pyval);
}.

Section Topvalues.
Context `{Utils} {S : Type} `{Client S}.

(** [self.searchscript(name="http-headers", ...)]: with a [name] the call
    cannot raise, and [flt] stays as it is in the branch that cannot be
    reached. *)
Definition and_script (flt : Query) (values : option script_values) : Query :=
  match searchscript (Some (Lit "http-headers")) None values false with
  | Ok q => flt_and flt q
  | Raise _ => flt
  end.

Definition topvalues_dispatch (field : string) (flt : option Query)
  : dispatch :=
  let flt := default flt_empty flt in
  if String.eqb field "asnum" then
    {| d_flt := flt_and flt (Q "exists" "field" (PStr "infos.as_num"));
       d_field := {["field" := PStr "infos.as_num"]};
       d_nested := None; d_outputproc := None |}
  else if String.eqb field "as" then
    {| d_flt := flt_and flt (Q "exists" "field" (PStr "infos.as_num"));
       d_field := painless script_as None;
       d_nested := None; d_outputproc := Some outputproc_as |}
  else if (String.eqb field "port" || String.prefix "port:" field)%bool then
    if String.eqb field "port" then
      {| d_flt := flt_and flt
           (Nested "ports" (Q "exists" "field" (PStr "ports.port")));
         d_field := painless script_port None;
         d_nested := None; d_outputproc := Some outputproc_port |}
    else
      let info := string_drop 5 field in
      let state := bool_decide (info ∈ ["open"; "filtered"; "closed"]) in
      let matchfield := if state then "state_state" else "service_name" in
      {| d_flt := flt_and flt
           (Nested "ports" (Q "match" ("ports." +:+ matchfield) (PStr info)));
         d_field := painless script_port_match
           (Some (<["field" := PStr matchfield]> {["value" := PStr info]}));
         d_nested := None; d_outputproc := Some outputproc_port |}
  else if String.eqb field "httphdr" then
    {| d_flt := and_script flt None;
       d_field := painless script_httphdr None;
       d_nested := None; d_outputproc := Some outputproc_httphdr |}
  else if String.prefix "httphdr." field then
    let field : pydict :=
      {["field" := PStr ("ports.scripts.http-headers." +:+ string_drop 8 field)]}
    in
    {| d_flt := and_script flt None;
       d_field := field;
       d_nested := Some
         (<["nested" := PDict {["path" := PStr "ports"]}]>
            {["aggs" := PDict {["patterns" := PDict
               (<["nested" := PDict {["path" := PStr "ports.scripts"]}]>
                  {["aggs" := PDict {["patterns" := PDict
                     {["terms" := PDict field]}]}]})]}]});
       d_outputproc := None |}
  else if String.prefix "httphdr:" field then
    let subfield := lower (string_drop 8 field) in
    {| d_flt := and_script flt
         (Some (VItems [("name", FVal (PStr subfield))]));
       d_field := painless script_httphdr_name
         (Some {["name" := PStr subfield]});
       d_nested := None; d_outputproc := None |}
  else
    {| d_flt := flt; d_field := {["field" := PStr field]};
       d_nested := None; d_outputproc := None |}.

(** [body = {"query": flt.to_dict()}] and then [body["aggs"]]. *)
Definition topvalues_body (field : string) (flt : option Query) (topnbr : Z)
  : search_body :=
  let d := topvalues_dispatch field flt in
  {| body_query := d_flt d;
     body_aggs :=
       match d_nested d with
       | None =>
           {["patterns" := PDict
              {["terms" := PDict (<["size" := PInt topnbr]> (d_field d))]}]}
       | Some nested => {["patterns" := PDict nested]}
       end |}.

(** [while 'patterns' in result: result = result['patterns']] and then
    [result['buckets']]. *)
Fixpoint result_buckets (result : aggregations) : list bucket :=
  match result with
  | Patterns inner => result_buckets inner
  | Buckets bs => bs
  end.

Definition top_item (outputproc : option (pyval -> result pyval))
  (res : bucket) : result pydict :=
  ident ← match outputproc with
          | None => Ok (key res)
          | Some f => f (key res)
          end;
  Ok (<["_id" := ident]> {["count" := PInt (doc_count res)]}).

(** [topvalues]: the values it yields and the exception that ends it, if
    one does, and the state it leaves the engine in. *)
Definition topvalues (field : string) (flt : option Query) (topnbr : Z)
  (st : S) : list pydict * option exn * S :=
  let d := topvalues_dispatch field flt in
  let '(st', result) := search_terms st (topvalues_body field flt topnbr) in
  (yield_each (top_item (d_outputproc d)) (result_buckets result), st').

End Topvalues.


(** ** Predicates as boolean formulas

    The value of a predicate on a document, given the value [atom] of the
    queries the engine evaluates itself. *)
Fixpoint holds (atom : Query -> bool) (q : Query) : bool :=
  match q with
  | MatchAll => true
  | And q1 q2 => holds atom q1 && holds atom q2
  | Or q1 q2 => holds atom q1 || holds atom q2
  | Not q' => negb (holds atom q')
  | _ => atom q
  end.

(** The operands of a conjunction built by [query &= ...] from [Q()]. *)
Fixpoint conjuncts (q : Query) : list Query :=
  match q with
  | MatchAll => []
  | And q1 q2 => conjuncts q1 ++ [q2]
  | _ => [q]
  end.

(** ** Hosts *)

(** A host record as the data model has it: [infos], when present, is a
    dict, and its [coordinates], when present, are a list. *)
Definition host_record (host : pydict) : bool :=
  match host !! "infos" with
  | None => true
  | Some (PDict infos) =>
      match infos !! "coordinates" with
      | None | Some (PList _) => true
      | Some _ => false
      end
  | Some _ => false
  end.

(** [host['infos']['coordinates']] *)
Definition coordinates (host : pydict) : option pyval :=
  match host !! "infos" with
  | Some (PDict infos) => infos !! "coordinates"
  | _ => None
  end.

(** ** Sample collaborators

    Instances of the interfaces above on which the properties are run. *)

(** An alias table in which ["UK"] stands for ["GB"], applied to a code or
    to each code of a list. *)
Definition unalias_code (country : pyval) : pyval :=
  match country with
  | PStr s => PStr (if String.eqb s "UK" then "GB" else s)
  | _ => country
  end.

Definition sample_utils : Utils := {|
  regexp2pattern r := (".*" +:+ re_pattern r +:+ ".*", re_flags r);
  country_unalias country :=
    match country with
    | PList l => PList (unalias_code <$> l)
    | _ => unalias_code country
    end;
  ALIASES_TABLE_ELEMS := {["http-headers" := "http-headers"]};
  all2datetime v := v;
  datetime_fields := ["starttime"; "endtime"];
  regexp_str r := re_pattern r;
  int_literal := parse_int;
  int_literal_plain _ _ := eq_refl;
  float_literal s := PInt <$> parse_int s;
  int_div1000 z := PInt (z / 1000);
  dict_keys d := (map_to_list d).*1;
  dict_keys_perm _ := reflexivity _;
|}.

(** An engine that matches every document, numbers its records and keeps
    the whole source. *)
Definition sample_engine : Engine := {|
  matches _ _ := true;
  new_id idx := String (ascii_of_nat (48 + List.length idx)) EmptyString;
  source_filter _ source := source;
|}.

(** The value at the end of a path of keys in a JSON value. *)
Fixpoint lookup_path (path : list string) (v : pyval) : option pyval :=
  match path with
  | [] => Some v
  | k :: rest =>
      match v with
      | PDict d => v' ← d !! k; lookup_path rest v'
      | _ => None
      end
  end.

(** The terms aggregation of a request of [topvalues], directly under
    ["patterns"] or under its two nested aggregations. *)
Definition terms_of (body : search_body) : option pyval :=
  match lookup_path ["patterns"; "terms"] (PDict (body_aggs body)) with
  | Some t => Some t
  | None =>
      lookup_path ["patterns"; "aggs"; "patterns"; "aggs"; "patterns"; "terms"]
        (PDict (body_aggs body))
  end.

(** The ["size"] of that terms aggregation. *)
Definition terms_size (body : search_body) : option pyval :=
  t ← terms_of body; lookup_path ["size"] t.

(** A client whose state is the number of requests it has answered: it
    answers composite requests with the pages of [pages] in turn, and a
    terms aggregation with the first buckets of [avail], as many as the
    ["size"] of the aggregation says and 10 when it has none, which is the
    engine's default. *)
Definition sample_client (pages : list page) (avail : list bucket)
  : Client nat := {|
  search_composite st _ :=
    (Datatypes.S st,
     default {| buckets := []; after_key := None |} (pages !! st));
  search_terms st body :=
    (Datatypes.S st,
     Patterns (Buckets
       (take (match terms_size body with
              | Some (PInt n) => Z.to_nat n
              | _ => 10%nat
              end) avail)));
|}.

Definition header_buckets : list bucket :=
  [ {| key := PStr "server"; doc_count := 9 |};
    {| key := PStr "date"; doc_count := 8 |};
    {| key := PStr "content-type"; doc_count := 7 |};
    {| key := PStr "content-length"; doc_count := 6 |};
    {| key := PStr "connection"; doc_count := 5 |} ].

Definition as_pages : list page :=
  [ {| buckets := [ {| key := PInt 15169; doc_count := 1 |} ];
       after_key := Some (PDict {["infos.as_num" := PInt 15169]}) |};
    {| buckets := [ {| key := PInt 8075; doc_count := 1 |} ];
       after_key := None |} ].

(** The host of the specification's scenario, with integer coordinates. *)
Definition paris : pydict :=
  <["addr" := PStr "1.2.3.4"]>
    {["infos" := PDict (<["country_code" := PStr "FR"]>
                   {["coordinates" := PList [PInt 48; PInt 2]]})]}.


(** ** Connection settings *)

(** [c in s] for a character [c]. *)
Fixpoint has_char (c : Ascii.ascii) (s : string) : bool :=
  match s with
  | EmptyString => false
  | String x r => (Ascii.eqb x c || has_char c r)%bool
  end.

(** [s.split(c)] for a character [c]. *)
Fixpoint split_on (c : Ascii.ascii) (s : string) : list string :=
  match s with
  | EmptyString => [EmptyString]
  | String x r =>
      if Ascii.eqb x c then EmptyString :: split_on c r
      else match split_on c r with
           | h :: t => String x h :: t
           | [] => [String x EmptyString]
           end
  end.

(** [s.lstrip(c)] for a character [c]. *)
Fixpoint lstrip_char (c : Ascii.ascii) (s : string) : string :=
  match s with
  | String x r => if Ascii.eqb x c then lstrip_char c r else s
  | EmptyString => EmptyString
  end.

Definition nonempty (s : string) : bool :=
  match s with
  | EmptyString => false
  | String _ _ => true
  end.

(** The parts of a parsed URL that [ElasticDB.__init__] reads. *)
Record url := { url_netloc : string; url_path : string; url_query : string }.

(** The attributes [ElasticDB.__init__] sets. *)
Record settings := {
  username : string;
  password : string;
  hosts : option (list string);
  index_prefix : string;
  params : gmap string (option string);
}.

(** [x.split('=', 1) if '=' in x else (x, None)] *)
Definition param_item (x : string) : string * option string :=
  if has_char "="%char x then
    match split1 "=" x with
    | k :: v :: _ => (k, Some v)
    | _ => (x, None)
    end
  else (x, None).

(** [dict(... for x in url.query.split('&') if x)]: a later item replaces an
    earlier one with the same key. *)
Definition parse_params (query : string) : gmap string (option string) :=
  fold_left (fun d x => let '(k, v) := param_item x in <[k := v]> d)
    (filter (fun x => nonempty x = true) (split_on "&"%char query)) ∅.

Section Settings.
(** [urllib.parse.unquote] *)
Variable unquote : string -> string.

Definition init_credentials (netloc : string)
  : string * string * option (list string) :=
  if has_char "@"%char netloc then
    match split1 "@" netloc with
    | user :: hostname :: _ =>
        let '(usr, pw) :=
          if has_char ":"%char user then
            match split1 ":" user with
            | a :: b :: _ => (unquote a, unquote b)
            | _ => (EmptyString, EmptyString)
            end
          else (unquote user, EmptyString) in
        (usr, pw, if nonempty hostname then Some [hostname] else None)
    | _ => (EmptyString, EmptyString, None)
    end
  else if nonempty netloc then (EmptyString, EmptyString, Some [netloc])
  else (EmptyString, EmptyString, None).

(** [ElasticDB.__init__] *)
Definition ElasticDB_init (u : url) : settings :=
  let '(usr, pw, hs) := init_credentials (url_netloc u) in
  let prefix := lstrip_char "/"%char (url_path u) in
  {| username := usr;
     password := pw;
     hosts := hs;
     index_prefix := if nonempty prefix then prefix +:+ "-" else "ivre-";
     params := parse_params (url_query u) |}.

(** [ElasticDBView.__init__]: the settings after
    [self.params.pop('indexname_hosts', 'views')] and the list [indexes];
    ["%s"] writes [None] as ["None"]. *)
Definition ElasticDBView_init (u : url) : settings * list string :=
  let s := ElasticDB_init u in
  let name := match params s !! "indexname_hosts" with
              | Some (Some v) => v
              | Some None => "None"
              | None => "views"
              end in
  ({| username := username s;
      password := password s;
      hosts := hosts s;
      index_prefix := index_prefix s;
      params := delete "indexname_hosts" (params s) |},
   [index_prefix s +:+ name]).

End Settings.

(** ** Pattern Translator *)

(** [re.UNICODE] *)
Definition re_UNICODE : Z := 32.

(** [_get_pattern] with the warnings it logs: the arguments [pattern] and
    [flags] of each call of [utils.LOGGER.warning]. *)
Definition _get_pattern_logged `{Utils} (r : regexp)
  : string * list (string * Z) :=
  let '(pattern, flags) := regexp2pattern r in
  if Z.eqb (Z.land flags (Z.lnot re_UNICODE)) 0 then (pattern, [])
  else (pattern, [(pattern, flags)]).

(** ** Schema of the active index *)

Definition nested_fields : list string := ["ports"; "ports.scripts"].

(** [ElasticDBActive.mappings[0]], given [DBActive.ipaddr_fields]. *)
Definition active_mapping `{Utils} (ipaddr_fields : list string) : pydict :=
  _create_mappings nested_fields
    [("nested", nested_fields);
     ("ip", ipaddr_fields);
     ("date", datetime_fields);
     ("geo_point", ["infos.coordinates"])].

(** The place where a field is written: the reference [cur] and the key
    [subkey] of the final assignment [cur[subkey] = ...]. *)
Definition target (res : pydict) (fld : string) : list string * string :=
  let segs := split_dot fld in
  let '(_, cur, curkey) := walk (removelast segs) res [] None in
  (cur, compound curkey (List.last segs EmptyString)).

(** The keys a reference went through, without the ["properties"] between
    them. *)
Fixpoint keys_of (cur : list string) : list string :=
  match cur with
  | k :: _ :: rest => k :: keys_of rest
  | _ => []
  end.

(** The node at [key] in the dict that [cur] points to is nested. *)
Definition nested_at (res : pydict) (cur : list string) (key : string) : bool :=
  match dict_at cur res with
  | Some d => is_nested d key
  | None => false
  end.

(** ** Removal *)

(** What [remove] does: it removes the record, or the engine has no record
    with that identifier, or the host has no ['_id']. *)
Inductive removal :=
| Removed (idx : list hit)
| NotFound
| Failed (e : exn).

(** [db_client.delete(id=..., index=...)] on the list of records. *)
Definition delete_doc (idx : list hit) (ident : pyval) : option (list hit) :=
  match ident with
  | PStr s =>
      if existsb (fun rec => String.eqb (_id rec) s) idx
      then Some (filter (fun rec => _id rec ≠ s) idx)
      else None
  | _ => None
  end.

Definition remove (host : pydict) (idx : list hit) : removal :=
  match host !! "_id" with
  | None => Failed (KeyError "_id")
  | Some ident =>
      match delete_doc idx ident with
      | Some idx' => Removed idx'
      | None => NotFound
      end
  end.

(** ** getlocations *)

Section Getlocations.
Context `{Utils} {S : Type} `{Client S}.
(** [DB.flt_and] applied to one condition. *)
Variable flt_and1 : Query -> Query.






End Getlocations.

(** ** Writing a query string *)

(** [sep.join(l)] *)
Fixpoint join_with (sep : string) (l : list string) : string :=
  match l with
  | [] => EmptyString
  | [x] => x
  | x :: rest => x +:+ sep +:+ join_with sep rest
  end.

(** [key=value], or [key] alone for an item without a value. *)
Definition render_param (item : string * option string) : string :=
  match item with
  | (k, Some v) => k +:+ "=" +:+ v
  | (k, None) => k
  end.

(** A key that can be written in a query string and a value that can. *)
Definition param_ok (item : string * option string) : bool :=
  (nonempty item.1 && negb (has_char "&"%char item.1)
   && negb (has_char "="%char item.1)
   && match item.2 with
      | Some v => negb (has_char "&"%char v)
      | None => true
      end)%bool.

(** A string of [n] slashes. *)
Fixpoint slashes (n : nat) : string :=
  match n with
  | O => EmptyString
  | Datatypes.S n' => String "/"%char (slashes n')
  end.

(** ** References into a mapping tree *)

(** The reference that goes through the nodes [keys], entering the
    ["properties"] of each. *)
Fixpoint expand (keys : list string) : list string :=
  match keys with
  | [] => []
  | k :: rest => k :: "properties" :: expand rest
  end.

(** The children of a node: its ["properties"], none when it has no such
    key. *)
Definition properties_of (node : pydict) : option pydict :=
  match node !! "properties" with
  | None => Some ∅
  | Some (PDict props) => Some props
  | Some _ => None
  end.

(** ** More samples *)

(** An element of [req] that [searchscript] turns into a query itself. *)
Definition is_triple (s : subreq) : Prop :=
  match s with
  | Triple _ _ _ => True
  | SubQuery _ => False
  end.


(** ** Creation of the indexes *)








(** * Properties *)

(** ** Schema Builder *)

Example split_dot_ex : split_dot "ports.scripts.id" = ["ports"; "scripts"; "id"].
Proof. reflexivity. Qed.

Example split_dot_empty_segments : split_dot "a..b." = ["a"; ""; "b"; ""].
Proof. reflexivity. Qed.

Example dotted_prefixes_ex : dotted_prefixes "a.b.c" = ["a"; "a.b"].
Proof. reflexivity. Qed.

Lemma string_app_assoc3 (a b c : string) : (a +:+ b) +:+ c = a +:+ (b +:+ c).
Proof.
  induction a as [|x a IH]; [done |].
  change (String x ((a +:+ b) +:+ c) = String x (a +:+ (b +:+ c))).
  by rewrite IH.
Qed.

Lemma split_dot_nonempty (s : string) : split_dot s ≠ [].
Proof.
  destruct s as [|c r]; simpl; [done |].
  destruct (Ascii.eqb c dot); [done |].
  destruct (split_dot r); done.
Qed.

Lemma join_dot_cons_char (c : Ascii.ascii) (h : string) (t : list string) :
  join_dot (String c h :: t) = String c (join_dot (h :: t)).
Proof. destruct t; reflexivity. Qed.

Lemma join_split_dot (s : string) : join_dot (split_dot s) = s.
Proof.
  induction s as [|c r IH]; [done |].
  simpl. destruct (Ascii.eqb c dot) eqn:Hc.
  - apply Ascii.eqb_eq in Hc as ->.
    destruct (split_dot r) as [|h t] eqn:Hr; [by destruct (split_dot_nonempty r) |].
    change (join_dot (EmptyString :: h :: t)) with ("." +:+ join_dot (h :: t)).
    by rewrite IH.
  - destruct (split_dot r) as [|h t] eqn:Hr; [by destruct (split_dot_nonempty r) |].
    by rewrite join_dot_cons_char, IH.
Qed.

Lemma accumulate_join (segs : list string) (curkey : option string) :
  segs ≠ [] → accumulate curkey segs = Some (compound curkey (join_dot segs)).
Proof.
  revert curkey. induction segs as [|h t IH]; intros curkey Hne; [done |].
  destruct t as [|h' t]; [done |].
  change (accumulate curkey (h :: h' :: t))
    with (accumulate (Some (compound curkey h)) (h' :: t)).
  rewrite IH; [| done]. f_equal.
  change (join_dot (h :: h' :: t)) with (h +:+ "." +:+ join_dot (h' :: t)).
  destruct curkey as [ck|]; unfold compound; [| done].
  by rewrite !string_app_assoc3.
Qed.

Lemma is_nested_absent (res : pydict) (k : string) :
  res !! k = None → is_nested res k = false.
Proof. intros Hk. unfold is_nested. by rewrite Hk. Qed.

Lemma walk_flat (segs : list string) (res : pydict) (curkey : option string) :
  (∀ p, p ∈ prefixes_from curkey segs → res !! p = None) →
  walk segs res [] curkey = (res, [], accumulate curkey segs).
Proof.
  revert curkey. induction segs as [|seg rest IH]; intros curkey Hp; [done |].
  simpl. rewrite is_nested_absent.
  - apply IH. intros p Hin. apply Hp. simpl. by right.
  - apply Hp. simpl. by left.
Qed.

Lemma removelast_last_split (s : string) :
  removelast (split_dot s) ++ [List.last (split_dot s) EmptyString] = split_dot s.
Proof. symmetry. apply app_removelast_last, split_dot_nonempty. Qed.

Lemma declare_flat (fldtype : string) (res : pydict) (fld : string) :
  (∀ p, p ∈ dotted_prefixes fld → res !! p = None) →
  declare fldtype res fld = <[fld := leaf fldtype]> res.
Proof.
  intros Hp. unfold declare. rewrite walk_flat; [| exact Hp].
  simpl. f_equal.
  pose proof (accumulate_join (split_dot fld) None (split_dot_nonempty fld)) as Hacc.
  rewrite <- (removelast_last_split fld) in Hacc at 1.
  unfold accumulate in Hacc. rewrite fold_left_app in Hacc. simpl in Hacc.
  rewrite join_split_dot in Hacc. by injection Hacc.
Qed.

Lemma flat_tree_lookup (fldtype : string) (l : list string) (res : pydict)
  (k : string) :
  flat_tree fldtype l res !! k =
  if decide (k ∈ l) then Some (leaf fldtype) else res !! k.
Proof.
  revert res. induction l as [|f l IH]; intros res.
  - rewrite decide_False; [done | apply not_elem_of_nil].
  - change (flat_tree fldtype (f :: l) res)
      with (flat_tree fldtype l (<[f := leaf fldtype]> res)).
    rewrite IH.
    destruct (decide (k ∈ l)) as [Hl|Hl].
    + rewrite decide_True; [done | by right].
    + destruct (decide (k = f)) as [->|Hne].
      * rewrite decide_True; [| by left]. by rewrite lookup_insert_eq.
      * rewrite decide_False; [by rewrite lookup_insert_ne |].
        by intros [->|?]%elem_of_cons.
Qed.

Lemma flat_tree_perm (fldtype : string) (l1 l2 : list string) (res : pydict) :
  l1 ≡ₚ l2 → flat_tree fldtype l1 res = flat_tree fldtype l2 res.
Proof.
  intros Hperm. apply map_eq. intros k. rewrite !flat_tree_lookup.
  destruct (decide (k ∈ l1)) as [H1|H1].
  - rewrite decide_True; [done | by rewrite <- Hperm].
  - rewrite decide_False; [done | by rewrite <- Hperm].
Qed.

Lemma unrelated_spec (l : list string) (fld p : string) :
  unrelated l = true → fld ∈ l → p ∈ dotted_prefixes fld → p ∉ l.
Proof.
  unfold unrelated. rewrite forallb_forall. intros Hall Hfld Hp.
  apply list_elem_of_In in Hfld. specialize (Hall _ Hfld).
  rewrite forallb_forall in Hall. apply list_elem_of_In in Hp.
  specialize (Hall _ Hp). apply negb_true_iff, bool_decide_eq_false in Hall.
  exact Hall.
Qed.

Lemma flat_tree_snoc (fldtype : string) (l : list string) (fld : string)
  (res : pydict) :
  flat_tree fldtype (l ++ [fld]) res =
  <[fld := leaf fldtype]> (flat_tree fldtype l res).
Proof. unfold flat_tree. by rewrite fold_left_app. Qed.

Lemma declare_nested_flat (l done_ todo : list string) :
  unrelated l = true → l = done_ ++ todo →
  fold_left (declare "nested") todo (flat_tree "nested" done_ ∅) =
  flat_tree "nested" l ∅.
Proof.
  intros Hun. revert done_. induction todo as [|fld todo IH]; intros done_ ->.
  - by rewrite app_nil_r.
  - simpl. rewrite declare_flat.
    + rewrite <- flat_tree_snoc. apply IH. by rewrite <- app_assoc.
    + intros p Hp. rewrite flat_tree_lookup, lookup_empty.
      rewrite decide_False; [done |].
      intros Hin. eapply (unrelated_spec _ fld p Hun); [| done |].
      * apply elem_of_app. right. by left.
      * apply elem_of_app. by left.
Qed.

Lemma unrelated_perm (l1 l2 : list string) :
  l1 ≡ₚ l2 → unrelated l1 = true → unrelated l2 = true.
Proof.
  intros Hperm Hun. unfold unrelated. rewrite forallb_forall.
  intros fld Hfld. rewrite forallb_forall. intros p Hp.
  apply negb_true_iff, bool_decide_eq_false.
  rewrite <- Hperm. apply (unrelated_spec l1 fld p Hun).
  - rewrite Hperm. by apply list_elem_of_In.
  - by apply list_elem_of_In.
Qed.

Lemma create_mappings_perm
  (l1 l2 : list string) (all_mappings : list (string * list string)) :
  unrelated l1 = true → l1 ≡ₚ l2 →
  _create_mappings l1 all_mappings = _create_mappings l2 all_mappings.
Proof.
  intros Hun Hperm. unfold _create_mappings. f_equal.
  pose proof (declare_nested_flat l1 [] l1 Hun eq_refl) as H1.
  pose proof (declare_nested_flat l2 [] l2 (unrelated_perm _ _ Hperm Hun) eq_refl)
    as H2.
  simpl in H1, H2. rewrite H1, H2. by apply flat_tree_perm.
Qed.

(** ** Predicate Builder *)

Section PredicateFacts.
Context `{Utils}.

Lemma negate_if_true (res : Query) : negate_if true res = Not res.
Proof. reflexivity. Qed.

Lemma negate_if_false (res : Query) : negate_if false res = res.
Proof. reflexivity. Qed.

(** The builders that honour [neg]. *)
Lemma searchhaslocation_neg :
  searchhaslocation true = Not (searchhaslocation false).
Proof. reflexivity. Qed.

Lemma searchcountry_neg (country : pyval) :
  searchcountry country true = Not (searchcountry country false).
Proof. reflexivity. Qed.

Lemma searchasname_neg (asname : strpat) :
  searchasname asname true = Not (searchasname asname false).
Proof. reflexivity. Qed.

Lemma searchasnum_neg (asnum : pyval) (q : Query) :
  searchasnum asnum false = Ok q → searchasnum asnum true = Ok (Not q).
Proof.
  unfold searchasnum. destruct (iter_values asnum) as [vals|].
  - destruct (mapM_result py_int vals); simpl; [| done].
    by intros [= <-].
  - destruct (py_int asnum); simpl; [| done].
    by intros [= <-].
Qed.

Lemma searchscript_neg (name output : option strpat)
  (values : option script_values) (q : Query) :
  searchscript name output values false = Ok q →
  searchscript name output values true = Ok (Not q).
Proof.
  unfold searchscript.
  destruct (searchscript_req name output values); simpl; [| done].
  by intros [= <-].
Qed.

Lemma not_fixpoint_free (q : Query) : q ≠ Not q.
Proof. induction q; congruence. Qed.

(** C3 (code defect): [searchhost] takes [neg] and ignores it; with
    [neg=True] it returns the positive predicate, not its negation. *)
Theorem searchhost_ignores_neg (addr : pyval) :
  searchhost addr true = Q "match" "addr" addr ∧
  searchhost addr true = searchhost addr false ∧
  searchhost addr true ≠ Not (searchhost addr false).
Proof. repeat split. apply not_fixpoint_free. Qed.

(** *** searchscript *)


Lemma conjuncts_fold (req : list Query) (q : Query) :
  conjuncts (fold_left And req q) = conjuncts q ++ req.
Proof.
  revert q. induction req as [|r req IH]; intros q; simpl.
  - by rewrite app_nil_r.
  - rewrite IH. simpl. by rewrite <- app_assoc.
Qed.

Lemma conjoin_fold (req : list subreq) (q : Query) :
  fold_left (fun query s => And query (subreq_query s)) req q =
  fold_left And (subreq_query <$> req) q.
Proof. revert q. induction req as [|r req IH]; intros q; simpl; [done | apply IH]. Qed.

Lemma conjuncts_conjoin (req : list subreq) :
  conjuncts (conjoin req) = subreq_query <$> req.
Proof. unfold conjoin. by rewrite conjoin_fold, conjuncts_fold. Qed.




(** C7: [values] without [name] raises the [TypeError] of the source,
    whatever [output], [values] and [neg] are, and it does so while the
    list [req] is built, before any query is. *)
Theorem searchscript_values_need_name (output : option strpat)
  (values : script_values) (neg : bool) :
  searchscript_req None output (Some values) =
    Raise (TypeError
      ".searchscript() needs a `name` arg when using a `values` arg") ∧
  searchscript None output (Some values) neg =
    Raise (TypeError
      ".searchscript() needs a `name` arg when using a `values` arg").
Proof. unfold searchscript, searchscript_req. by destruct output. Qed.

(** *** searchasnum *)

Lemma mapM_result_Forall2 {A B} (f : A → result B) (l : list A) (bs : list B) :
  Forall2 (fun a b => f a = Ok b) l bs → mapM_result f l = Ok bs.
Proof.
  induction 1 as [|a b l bs Hab _ IH]; simpl; [done |].
  by rewrite Hab, IH.
Qed.

Lemma mapM_result_raise {A B} (f : A → result B) (l : list A) (a : A) (e : exn) :
  a ∈ l → f a = Raise e → ∃ e', mapM_result f l = Raise e'.
Proof.
  intros Hin Ha. induction l as [|x l IH]; [by apply not_elem_of_nil in Hin |].
  simpl. destruct (f x) as [b|e0] eqn:Hx; [| by eexists].
  apply elem_of_cons in Hin as [->|Hin]; [congruence |].
  destruct (IH Hin) as [e' ->]. by eexists.
Qed.

Lemma mapM_result_first_raise {A B} (f : A → result B) (good : list A)
  (bs : list B) (a : A) (rest : list A) (e : exn) :
  Forall2 (fun a b => f a = Ok b) good bs → f a = Raise e →
  mapM_result f (good ++ a :: rest) = Raise e.
Proof.
  intros Hgood Ha. induction Hgood as [|x b good bs Hx _ IH]; simpl.
  - by rewrite Ha.
  - by rewrite Hx, IH.
Qed.

Lemma py_int_raise (v : pyval) (e : exn) :
  py_int v = Raise e →
  match v with
  | PStr _ => ∃ msg, e = ValueError msg
  | _ => ∃ msg, e = TypeError msg
  end.
Proof.
  destruct v; simpl; try done; try (intros [= <-]; by eexists).
  destruct (int_literal s); [done |]. intros [= <-]. by eexists.
Qed.

(** A string of printable ASCII characters without underscore that is no
    decimal literal is refused by [int()] with a [ValueError]. *)
Lemma py_int_plain_invalid (s : string) :
  plain_ascii s = true → parse_int s = None →
  ∃ msg, py_int (PStr s) = Raise (ValueError msg).
Proof.
  intros Hplain Hnone. simpl.
  rewrite (int_literal_plain s Hplain), Hnone. by eexists.
Qed.

(** C8, as the code has it: [searchasnum] coerces its values with [int()];
    one value gives an exact match, an iterable a match-any-of over the
    coerced integers, and a value [int()] rejects makes the call raise what
    [int()] raises on it (on the first such value of an iterable), a
    [ValueError] for a string and a [TypeError] otherwise. *)
Theorem searchasnum_coerces (neg : bool) :
  (∀ asnum num,
     iter_values asnum = None → py_int asnum = Ok num →
     searchasnum asnum neg =
     Ok (negate_if neg (Q "match" "infos.as_num" (PInt num)))) ∧
  (∀ asnum vals nums,
     iter_values asnum = Some vals →
     Forall2 (fun v n => py_int v = Ok n) vals nums →
     searchasnum asnum neg =
     Ok (negate_if neg (Q "terms" "infos.as_num" (PList (PInt <$> nums))))) ∧
  (∀ asnum e,
     iter_values asnum = None → py_int asnum = Raise e →
     searchasnum asnum neg = Raise e) ∧
  (∀ asnum good nums v rest e,
     iter_values asnum = Some (good ++ v :: rest) →
     Forall2 (fun v n => py_int v = Ok n) good nums →
     py_int v = Raise e →
     searchasnum asnum neg = Raise e) ∧
  (∀ v e,
     py_int v = Raise e →
     match v with
     | PStr _ => ∃ msg, e = ValueError msg
     | _ => ∃ msg, e = TypeError msg
     end) ∧
  (∀ s,
     plain_ascii s = true → parse_int s = None →
     ∃ msg, searchasnum (PStr s) neg = Raise (ValueError msg)).
Proof.
  unfold searchasnum.
  split; [| split; [| split; [| split; [| split]]]].
  - intros asnum num -> ->. done.
  - intros asnum vals nums -> Hall.
    by rewrite (mapM_result_Forall2 _ _ _ Hall).
  - intros asnum e -> ->. done.
  - intros asnum good nums v rest e -> Hgood Hv.
    by rewrite (mapM_result_first_raise _ _ _ _ _ _ Hgood Hv).
  - apply py_int_raise.
  - intros s Hplain Hnone.
    destruct (py_int_plain_invalid s Hplain Hnone) as [msg Hmsg].
    exists msg. cbn [iter_values]. by rewrite Hmsg.
Qed.

(** *** searchcountry *)

(** C9, as the code has it: the predicate matches [infos.country_code]
    against what [utils.country_unalias] makes of the argument, with a
    match-any-of when that is a list and an exact match otherwise; for an
    argument that [utils.country_unalias] leaves as it is (one that holds
    no alias), this is the caller's argument: an exact match on the code,
    or a match-any-of over exactly the listed codes. *)
Theorem searchcountry_unaliased (country : pyval) (neg : bool) :
  searchcountry country neg = negate_if neg (searchcountry country false) ∧
  (∀ codes,
     country_unalias country = PList codes →
     searchcountry country false =
     Q "terms" "infos.country_code" (PList codes)) ∧
  ((∀ codes, country_unalias country ≠ PList codes) →
   searchcountry country false =
   Q "match" "infos.country_code" (country_unalias country)) ∧
  (country_unalias country = country →
   searchcountry country false =
   match country with
   | PList _ => Q "terms" "infos.country_code" country
   | _ => Q "match" "infos.country_code" country
   end).
Proof.
  unfold searchcountry. split; [| split; [| split]].
  - by destruct neg.
  - by intros codes ->.
  - intros Hnl. destruct (country_unalias country) eqn:Hc; try done.
    by destruct (Hnl l).
  - by intros ->.
Qed.

End PredicateFacts.

Example parse_int_ex :
  parse_int " 15169 " = Some 15169 ∧ parse_int "-1" = Some (-1) ∧
  parse_int "1_000" = Some 1000 ∧ parse_int "AS15169" = None ∧
  parse_int "" = None ∧ parse_int "1__0" = None.
Proof. repeat split. Qed.



Lemma searchasnum_coerces_witness :
  @searchasnum sample_utils (PList [PStr "15169"; PInt 8075]) false =
    Ok (Q "terms" "infos.as_num" (PList [PInt 15169; PInt 8075])) ∧
  @searchasnum sample_utils (PStr " 8075") true =
    Ok (Not (Q "match" "infos.as_num" (PInt 8075))) ∧
  @searchasnum sample_utils (PList [PInt 1; PNone; PStr "x"]) false =
    Raise (TypeError "int() argument must be a string or a number") ∧
  (∃ msg, @searchasnum sample_utils (PStr "AS15169") false =
          Raise (ValueError msg)).
Proof.
  destruct (@searchasnum_coerces sample_utils false)
    as (_ & Hterms & _ & Hbad & _ & Hstr).
  destruct (@searchasnum_coerces sample_utils true) as (Hmatch & _).
  split; [| split; [| split]].
  - apply (Hterms _ [PStr "15169"; PInt 8075] [15169; 8075]); [done |].
    repeat constructor.
  - by apply (Hmatch (PStr " 8075") 8075).
  - apply (Hbad _ [PInt 1] [1] PNone [PStr "x"]); [done | | done].
    repeat constructor.
  - by apply Hstr.
Defined.

(** C8, as stated, fails: a string that is not a number makes [int()] raise
    a [ValueError], not a [TypeError]. *)
Lemma searchasnum_coerces_counterexample :
  ¬ ∃ msg, @searchasnum sample_utils (PStr "AS15169") false =
           Raise (TypeError msg).
Proof. intros [msg Hmsg]. discriminate Hmsg. Qed.

Lemma searchcountry_unaliased_witness :
  @searchcountry sample_utils (PList [PStr "FR"; PStr "UK"]) false =
    Q "terms" "infos.country_code" (PList [PStr "FR"; PStr "GB"]) ∧
  @searchcountry sample_utils (PStr "FR") false =
    Q "match" "infos.country_code" (PStr "FR") ∧
  @searchcountry sample_utils (PList [PStr "FR"; PStr "DE"]) false =
    Q "terms" "infos.country_code" (PList [PStr "FR"; PStr "DE"]).
Proof.
  split; [| split].
  - destruct (@searchcountry_unaliased sample_utils
                (PList [PStr "FR"; PStr "UK"]) false) as (_ & Hlist & _).
    by apply Hlist.
  - destruct (@searchcountry_unaliased sample_utils (PStr "FR") false)
      as (_ & _ & Hone & _).
    apply Hone. intros codes. discriminate.
  - destruct (@searchcountry_unaliased sample_utils
                (PList [PStr "FR"; PStr "DE"]) false) as (_ & _ & _ & Hsame).
    by apply Hsame.
Defined.

(** C9, as stated, fails: an alias is replaced before the match. *)
Lemma searchcountry_unaliased_counterexample :
  @searchcountry sample_utils (PStr "UK") false ≠
  Q "match" "infos.country_code" (PStr "UK").
Proof. discriminate. Qed.

(** ** Record Store *)

Section RecordStoreFacts.
Context `{Utils} `{Engine}.

Lemma flip_coordinates_absent (host : pydict) :
  host_record host = true → coordinates host = None →
  flip_coordinates host = Ok host.
Proof.
  unfold host_record, coordinates, flip_coordinates.
  destruct (host !! "infos") as [[| | | | |infos]|]; try done.
  intros _ Hc. simpl. by rewrite Hc.
Qed.

Lemma flip_coordinates_list (host infos : pydict) (coords : list pyval) :
  host !! "infos" = Some (PDict infos) →
  infos !! "coordinates" = Some (PList coords) →
  flip_coordinates host =
  Ok (<["infos" := PDict (<["coordinates" := PList (rev coords)]> infos)]> host).
Proof.
  intros Hi Hc. unfold flip_coordinates. rewrite Hi. simpl. by rewrite Hc.
Qed.

Lemma decode_datetime_other (fields : list string) (host : pydict) (k : string) :
  k ∉ fields → fold_left decode_datetime fields host !! k = host !! k.
Proof.
  revert host. induction fields as [|f fields IH]; intros host Hk; [done |].
  simpl. rewrite IH; [| by intros ?; apply Hk; right].
  unfold decode_datetime. destruct (host !! f); [| done].
  apply lookup_insert_ne. intros ->. apply Hk. by left.
Qed.

Lemma yield_each_app {A B} (f : A → result B) (l1 l2 : list A) (ys : list B) :
  yield_each f l1 = (ys, None) →
  yield_each f (l1 ++ l2) = (ys ++ (yield_each f l2).1, (yield_each f l2).2).
Proof.
  revert ys. induction l1 as [|a l1 IH]; intros ys; simpl.
  - intros [= <-]. by destruct (yield_each f l2).
  - destruct (f a) as [b|e]; [| done].
    destruct (yield_each f l1) as [bs e] eqn:Hl1. intros [= <- ->].
    rewrite (IH bs eq_refl). done.
Qed.

Lemma scan_index_doc (idx : list hit) (spec : Query) (body : pydict) :
  matches spec body = true →
  scan (index_doc idx body) spec None =
  scan idx spec None ++ [{| _id := new_id idx; _source := body |}].
Proof.
  intros Hm. unfold scan, index_doc.
  rewrite filter_app, fmap_app. f_equal.
  rewrite filter_cons_True; [done |]. done.
Qed.

(** C1: a host whose [infos.coordinates] is the pair [[lat, lon]] is indexed
    with [[lon, lat]], and the record read back by [get] has [[lat, lon]]
    again; [get] yields it after the records it yielded before. *)
Theorem store_get_coordinates (host infos : pydict) (lat lon : pyval)
  (idx : list hit) (spec : Query) :
  host !! "infos" = Some (PDict infos) →
  infos !! "coordinates" = Some (PList [lat; lon]) →
  "infos" ∉ datetime_fields →
  ∃ body fetched,
    store_host host idx = Ok (body, index_doc idx body) ∧
    coordinates body = Some (PList [lon; lat]) ∧
    get_host {| _id := new_id idx; _source := body |} = Ok fetched ∧
    coordinates fetched = Some (PList [lat; lon]) ∧
    (matches spec body = true →
     ∀ before, get spec None idx = (before, None) →
               get spec None (index_doc idx body) = (before ++ [fetched], None)).
Proof.
  intros Hi Hc Hdt.
  pose (body := <["infos" := PDict (<["coordinates" := PList [lon; lat]]> infos)]> host).
  assert (Hstore : flip_coordinates host = Ok body)
    by (by rewrite (flip_coordinates_list _ _ _ Hi Hc)).
  pose (rec := {| _id := new_id idx; _source := body |}).
  pose (flipped := <["infos" := PDict (<["coordinates" := PList [lat; lon]]>
                      (<["coordinates" := PList [lon; lat]]> infos))]>
                     (<["_id" := PStr (_id rec)]> body)).
  assert (Hget : get_host rec = Ok (fold_left decode_datetime datetime_fields flipped)).
  { unfold get_host.
    rewrite (flip_coordinates_list _ (<["coordinates" := PList [lon; lat]]> infos)
               [lon; lat]).
    - done.
    - rewrite lookup_insert_ne; [| done]. apply lookup_insert_eq.
    - apply lookup_insert_eq. }
  exists body, (fold_left decode_datetime datetime_fields flipped).
  split; [| split; [| split; [| split]]].
  - unfold store_host. by rewrite Hstore.
  - unfold coordinates, body. rewrite lookup_insert_eq. apply lookup_insert_eq.
  - exact Hget.
  - unfold coordinates. rewrite decode_datetime_other; [| done].
    unfold flipped. rewrite lookup_insert_eq. apply lookup_insert_eq.
  - intros Hm before Hbefore. unfold get in *.
    rewrite scan_index_doc; [| done].
    rewrite (yield_each_app _ _ _ _ Hbefore). simpl.
    fold rec. by rewrite Hget.
Qed.

(** C10: on a host record [store_host] indexes, as one new record, a body
    that differs from the host at most in [infos.coordinates], which is
    reversed; a host without [infos.coordinates] is indexed as it is. *)
Theorem store_host_frame (host : pydict) (idx : list hit) :
  host_record host = true →
  ∃ body,
    store_host host idx =
      Ok (body, idx ++ [{| _id := new_id idx; _source := body |}]) ∧
    (∀ k, k ≠ "infos" → body !! k = host !! k) ∧
    (∀ infos, host !! "infos" = Some (PDict infos) →
       ∃ infos', body !! "infos" = Some (PDict infos') ∧
                 (∀ k, k ≠ "coordinates" → infos' !! k = infos !! k) ∧
                 (∀ coords, infos !! "coordinates" = Some (PList coords) →
                            infos' !! "coordinates" = Some (PList (rev coords)))) ∧
    (host !! "infos" = None → body !! "infos" = None) ∧
    (coordinates host = None → body = host).
Proof.
  intros Hrec. destruct (coordinates host) as [coords|] eqn:Hcoords.
  - unfold coordinates in Hcoords. unfold host_record in Hrec.
    destruct (host !! "infos") as [[| | | | |infos]|] eqn:Hi; try done.
    rewrite Hcoords in Hrec. destruct coords as [| | | |coords|]; try done.
    eexists. split; [| split; [| split; [| split]]].
    + unfold store_host. rewrite (flip_coordinates_list _ _ _ Hi Hcoords). done.
    + intros k Hk. by rewrite lookup_insert_ne.
    + intros infos0 [= <-]. eexists. split; [apply lookup_insert_eq |]. split.
      * intros k Hk. by rewrite lookup_insert_ne.
      * intros coords0 Hc0. rewrite Hcoords in Hc0. injection Hc0 as <-.
        apply lookup_insert_eq.
    + done.
    + done.
  - exists host. split; [| split; [| split; [| split]]].
    + unfold store_host. by rewrite flip_coordinates_absent.
    + done.
    + intros infos Hi. exists infos. split; [done |]. split; [done |].
      intros coords Hc. unfold coordinates in Hcoords.
      rewrite Hi, Hc in Hcoords. done.
    + done.
    + done.
Qed.

End RecordStoreFacts.

Lemma store_get_coordinates_witness :
  ∃ body fetched,
    @store_host sample_engine paris [] = Ok (body, @index_doc sample_engine [] body) ∧
    coordinates body = Some (PList [PInt 2; PInt 48]) ∧
    @get sample_utils sample_engine MatchAll None (@index_doc sample_engine [] body) =
      ([fetched], None) ∧
    coordinates fetched = Some (PList [PInt 48; PInt 2]).
Proof.
  destruct (@store_get_coordinates sample_utils sample_engine paris
              (<["country_code" := PStr "FR"]>
                 {["coordinates" := PList [PInt 48; PInt 2]]})
              (PInt 48) (PInt 2) [] MatchAll)
    as (body & fetched & Hstore & Hbody & _ & Hfetched & Hget).
  - reflexivity.
  - reflexivity.
  - simpl. intros Hin. apply elem_of_cons in Hin as [Hin|Hin]; [discriminate |].
    apply elem_of_cons in Hin as [Hin|Hin]; [discriminate |].
    by apply not_elem_of_nil in Hin.
  - exists body, fetched. split; [exact Hstore |]. split; [exact Hbody |].
    split; [| exact Hfetched].
    apply (Hget eq_refl []). reflexivity.
Defined.

Lemma store_host_frame_witness :
  ∃ body,
    @store_host sample_engine paris [] =
      Ok (body, [{| _id := "0"; _source := body |}]) ∧
    body !! "addr" = Some (PStr "1.2.3.4").
Proof.
  destruct (@store_host_frame sample_engine paris []) as (body & Hstore & Hframe & _).
  - reflexivity.
  - exists body. split; [exact Hstore |].
    rewrite Hframe; [reflexivity | discriminate].
Defined.

(** ** Aggregation Engine *)

Section DistinctFacts.
Context `{Utils} {S : Type} `{Client S}.

Lemma composite_of_body (flt : Query) (query : pydict) :
  composite_of (composite_body flt query) = Some query.
Proof.
  unfold composite_of, composite_body. simpl.
  rewrite lookup_singleton_eq. by rewrite lookup_singleton_eq.
Qed.

Lemma yield_each_Forall2 {A B} (f : A → result B) (l : list A) (bs : list B) :
  yield_each f l = (bs, None) → Forall2 (fun a b => f a = Ok b) l bs.
Proof.
  revert bs. induction l as [|a l IH]; intros bs; simpl.
  - intros [= <-]. constructor.
  - destruct (f a) as [b|e] eqn:Ha; [| done].
    destruct (yield_each f l) as [bs' e']. intros [= <- ->].
    constructor; [done | by apply IH].
Qed.

Section Paged.
Variable convert : bucket → result pyval.

Ltac step_paged st flt query :=
  cbn [paged_loop];
  let st' := fresh "st'" in
  let p := fresh "p" in
  let vals := fresh "vals" in
  let e := fresh "e" in
  let a := fresh "a" in
  let Hs := fresh "Hs" in
  let Hv := fresh "Hv" in
  let Ha := fresh "Ha" in
  destruct (search_composite st (composite_body flt query)) as [st' p] eqn:Hs;
  unfold after_page;
  destruct (yield_each convert (buckets p)) as [vals [e|]] eqn:Hv;
  cbn [fst snd];
  [| destruct (after_key p) as [a|] eqn:Ha];
  cbn [requests responses yielded engine ended].

Lemma paged_loop_lengths (n : nat) (flt : Query) (query : pydict) (st : S) :
  length (requests (paged_loop convert n flt query st)) =
  length (responses (paged_loop convert n flt query st)).
Proof.
  revert query st. induction n as [|n IH]; intros query st; [done |].
  step_paged st flt query; [done | | done]. simpl. by rewrite IH.
Qed.

Lemma paged_loop_bound (n : nat) (flt : Query) (query : pydict) (st : S) :
  (length (requests (paged_loop convert n flt query st)) ≤ n)%nat.
Proof.
  revert query st. induction n as [|n IH]; intros query st; [done |].
  step_paged st flt query; simpl; [lia | | lia].
  specialize (IH (<["after" := a]> query) st'). lia.
Qed.

Lemma paged_loop_requests (n : nat) (flt : Query) (query : pydict) (st : S)
  (i : nat) (body : search_body) :
  requests (paged_loop convert n flt query st) !! i = Some body →
  ∃ q, body = composite_body flt q ∧
       q !! "size" = query !! "size" ∧ q !! "sources" = query !! "sources".
Proof.
  revert query st i. induction n as [|n IH]; intros query st i; [done |].
  step_paged st flt query.
  - destruct i as [|i]; simpl; [| done]. intros [= <-]. by exists query.
  - destruct i as [|i]; simpl.
    + intros [= <-]. by exists query.
    + intros Hi. destruct (IH _ _ _ Hi) as (q & -> & Hsize & Hsrc).
      exists q. split; [done |].
      rewrite Hsize, Hsrc. by rewrite !lookup_insert_ne.
  - destruct i as [|i]; simpl; [| done]. intros [= <-]. by exists query.
Qed.

Lemma paged_loop_first (n : nat) (flt : Query) (query : pydict) (st : S)
  (body : search_body) :
  requests (paged_loop convert n flt query st) !! 0%nat = Some body →
  body = composite_body flt query.
Proof.
  destruct n as [|n]; [done |].
  step_paged st flt query; by intros [= <-].
Qed.

(** What follows a response: nothing after an exception or a response
    without [after_key]; otherwise the request that carries the
    [after_key], unless the bound on the number of requests is reached. *)
Lemma paged_loop_next (n : nat) (flt : Query) (query : pydict) (st : S)
  (i : nat) (p : page) :
  responses (paged_loop convert n flt query st) !! i = Some p →
  match (yield_each convert (buckets p)).2, after_key p with
  | Some e, _ =>
      Datatypes.S i = length (requests (paged_loop convert n flt query st)) ∧
      ended (paged_loop convert n flt query st) = Raised e
  | None, None =>
      Datatypes.S i = length (requests (paged_loop convert n flt query st)) ∧
      ended (paged_loop convert n flt query st) = Exhausted
  | None, Some after =>
      (∃ q, requests (paged_loop convert n flt query st) !! Datatypes.S i =
              Some (composite_body flt q) ∧
            q !! "after" = Some after) ∨
      ended (paged_loop convert n flt query st) = Suspended
  end.
Proof.
  revert query st i. induction n as [|n IH]; intros query st i; [done |].
  step_paged st flt query.
  - destruct i as [|i]; simpl; [| done]. intros [= <-]. by rewrite Hv.
  - destruct i as [|i]; simpl.
    + intros [= <-]. rewrite Hv, Ha. simpl.
      destruct n as [|n]; [by right |]. left.
      exists (<["after" := a]> query). split; [| apply lookup_insert_eq].
      cbn [paged_loop].
      destruct (search_composite st' (composite_body flt (<["after":=a]> query)))
        as [st'' p'].
      unfold after_page. destruct (yield_each convert (buckets p')) as [? [?|]];
        [done |]. by destruct (after_key p').
    + intros Hi. specialize (IH _ _ _ Hi).
      destruct (yield_each convert (buckets p)) as [? [?|]]; simpl in *.
      * destruct IH as [<- ?]. done.
      * destruct (after_key p); [done |]. destruct IH as [<- ?]. done.
  - destruct i as [|i]; simpl; [| done]. intros [= <-]. by rewrite Hv, Ha.
Qed.

Lemma paged_loop_ends (k n : nat) (flt : Query) (query : pydict) (st : S) :
  after_key (page_at k flt query st) = None → (k < n)%nat →
  ended (paged_loop convert n flt query st) ≠ Suspended.
Proof.
  revert k query st. induction n as [|n IH]; intros k query st Hk Hlt; [lia |].
  destruct k as [|k]; cbn [page_at] in Hk; step_paged st flt query;
    cbn beta iota in Hk; try done; rewrite ?Ha in Hk; try done.
  apply (IH k); [done | lia].
Qed.

Lemma paged_loop_more (n m : nat) (flt : Query) (query : pydict) (st : S) :
  ended (paged_loop convert n flt query st) ≠ Suspended → (n ≤ m)%nat →
  paged_loop convert m flt query st = paged_loop convert n flt query st.
Proof.
  revert m query st. induction n as [|n IH]; intros m query st; [done |].
  intros Hend Hle. destruct m as [|m]; [lia |]. revert Hend.
  step_paged st flt query; try done.
  intros Hend. rewrite (IH m); [done | done | lia].
Qed.

Lemma paged_loop_raised (n : nat) (flt : Query) (query : pydict) (st : S)
  (e : exn) :
  ended (paged_loop convert n flt query st) = Raised e →
  ∃ p, p ∈ responses (paged_loop convert n flt query st) ∧
       (yield_each convert (buckets p)).2 = Some e.
Proof.
  revert query st. induction n as [|n IH]; intros query st; [done |].
  step_paged st flt query; try done.
  - intros [= <-]. exists p. split; [by left | by rewrite Hv].
  - intros Hend. destruct (IH _ _ Hend) as (p' & Hin & Hp').
    exists p'. split; [by right | done].
Qed.

Lemma paged_loop_converted (n : nat) (flt : Query) (query : pydict) (st : S) :
  ended (paged_loop convert n flt query st) = Exhausted →
  Forall2 (fun b v => convert b = Ok v)
    (concat (buckets <$> responses (paged_loop convert n flt query st)))
    (yielded (paged_loop convert n flt query st)).
Proof.
  revert query st. induction n as [|n IH]; intros query st; [done |].
  step_paged st flt query; try done.
  - intros Hend. simpl. apply Forall2_app; [| by apply IH].
    by apply yield_each_Forall2.
  - intros _. simpl. rewrite app_nil_r. by apply yield_each_Forall2.
Qed.

Lemma paged_loop_yielded (n : nat) (flt : Query) (query : pydict) (st : S) :
  yielded (paged_loop convert n flt query st) =
  concat ((fun p => (yield_each convert (buckets p)).1) <$>
            responses (paged_loop convert n flt query st)).
Proof.
  revert query st. induction n as [|n IH]; intros query st; [done |].
  step_paged st flt query; simpl; rewrite ?Hv; simpl.
  - by rewrite app_nil_r.
  - by rewrite IH.
  - by rewrite app_nil_r.
Qed.

Lemma paged_loop_suspended (n : nat) (flt : Query) (query : pydict) (st : S) :
  (∀ k, (k < n)%nat →
        after_key (page_at k flt query st) ≠ None ∧
        (yield_each convert (buckets (page_at k flt query st))).2 = None) →
  ended (paged_loop convert n flt query st) = Suspended ∧
  length (requests (paged_loop convert n flt query st)) = n.
Proof.
  revert query st. induction n as [|n IH]; intros query st Hk; [done |].
  pose proof (Hk 0%nat ltac:(lia)) as [Hfirst Hconv].
  cbn [page_at] in Hfirst, Hconv.
  assert (Hnext : ∀ k, (k < n)%nat →
            after_key (page_at (Datatypes.S k) flt query st) ≠ None ∧
            (yield_each convert
               (buckets (page_at (Datatypes.S k) flt query st))).2 = None)
    by (intros k Hlt; apply Hk; lia).
  cbn [page_at] in Hnext. clear Hk.
  step_paged st flt query; cbn beta iota in Hfirst, Hconv, Hnext.
  - done.
  - rewrite ?Ha in Hnext.
    destruct (IH (<["after" := a]> query) st' Hnext) as [Hend Hlen].
    split; [done |]. simpl. by rewrite Hlen.
  - done.
Qed.

End Paged.

Lemma distinct_loop_paged (n : nat) (field : string) (flt : Query)
  (query : pydict) (st : S) :
  distinct_loop n field flt query st =
  paged_loop (fun value => fix_result field (key value)) n flt query st.
Proof.
  revert query st. induction n as [|n IH]; intros query st; [done |].
  cbn [distinct_loop paged_loop].
  destruct (search_composite st (composite_body flt query)) as [st' p].
  unfold after_page, page_values.
  destruct (yield_each _ _) as [vals [e|]]; [done |].
  destruct (after_key p); [| done]. cbn [snd fst]. by rewrite IH.
Qed.

Lemma composite_query_size (field : string) :
  composite_query field !! "size" = Some (PInt 250).
Proof. unfold composite_query. apply lookup_insert_eq. Qed.

Lemma composite_query_after (field : string) :
  composite_query field !! "after" = None.
Proof.
  unfold composite_query. rewrite lookup_insert_ne; [| done].
  by rewrite lookup_singleton_ne.
Qed.

(** A field that is neither the coordinates nor a datetime field is
    yielded as it is. *)
Lemma fix_result_plain (field : string) (value : pyval) :
  String.eqb field "infos.coordinates" = false → field ∉ datetime_fields →
  fix_result field value = Ok value.
Proof.
  intros Hc Hd. unfold fix_result. rewrite Hc.
  by rewrite bool_decide_eq_false_2.
Qed.

(** C6: when the response to some request of the loop carries no
    [after_key], [distinct] ends after finitely many requests, and any
    larger bound on the number of requests gives the same run.  Every
    request is a composite aggregation of size 250 under the filter, the
    first one without [after]; a response with an [after_key] is followed
    by the request that carries it as [after], and a response without one
    is the last.  The one other way the run ends is an exception that
    [fix_result] raises on a bucket key, which ends it at that page: when
    no key raises, the values yielded are the bucket keys of the pages, in
    order, each passed through [fix_result]; in any case they are the keys
    converted before the exception. *)
Theorem distinct_pagination (field : string) (flt : option Query) (st : S)
  (k : nat) :
  after_key (page_at k (distinct_flt field flt) (composite_query field) st)
    = None →
  ∃ r,
    (∀ n, (k < n)%nat → distinct n field flt st = r) ∧
    ended r ≠ Suspended ∧
    length (requests r) = length (responses r) ∧
    (length (requests r) ≤ Datatypes.S k)%nat ∧
    (∀ i body, requests r !! i = Some body →
       body_query body = distinct_flt field flt ∧
       ∃ q, composite_of body = Some q ∧ q !! "size" = Some (PInt 250)) ∧
    (∀ body, requests r !! 0%nat = Some body →
       ∃ q, composite_of body = Some q ∧ q !! "after" = None) ∧
    (∀ i p, responses r !! i = Some p →
       match (page_values field p).2, after_key p with
       | Some e, _ =>
           Datatypes.S i = length (requests r) ∧ ended r = Raised e
       | None, None =>
           Datatypes.S i = length (requests r) ∧ ended r = Exhausted
       | None, Some after =>
           ∃ body q, requests r !! Datatypes.S i = Some body ∧
                     composite_of body = Some q ∧ q !! "after" = Some after
       end) ∧
    ((∀ p, p ∈ responses r → (page_values field p).2 = None) →
     ended r = Exhausted ∧
     Forall2 (fun b v => fix_result field (key b) = Ok v)
       (concat (buckets <$> responses r)) (yielded r)) ∧
    yielded r =
      concat ((fun p => (page_values field p).1) <$> responses r).
Proof.
  intros Hk. unfold distinct.
  set (f := distinct_flt field flt). set (q0 := composite_query field).
  fold f q0 in Hk.
  set (convert := fun value : bucket => fix_result field (key value)).
  assert (Hend : ended (paged_loop convert (Datatypes.S k) f q0 st) ≠ Suspended)
    by (apply (paged_loop_ends convert k); [done | lia]).
  exists (paged_loop convert (Datatypes.S k) f q0 st).
  split; [| split; [done | split; [| split; [| split; [| split;
    [| split; [| split]]]]]]].
  - intros n Hn. rewrite distinct_loop_paged.
    apply paged_loop_more; [done | lia].
  - apply paged_loop_lengths.
  - apply paged_loop_bound.
  - intros i body Hi.
    destruct (paged_loop_requests _ _ _ _ _ _ _ Hi) as (q & -> & Hsize & _).
    split; [done |]. exists q. split; [apply composite_of_body |].
    rewrite Hsize. apply composite_query_size.
  - intros body Hb. apply paged_loop_first in Hb as ->.
    exists q0. split; [apply composite_of_body | apply composite_query_after].
  - intros i p Hp. pose proof (paged_loop_next _ _ _ _ _ _ _ Hp) as Hnext.
    unfold page_values. fold convert.
    destruct (yield_each convert (buckets p)).2; [done |].
    destruct (after_key p) as [a|]; [| done].
    destruct Hnext as [(q & Hq & Hafter) | Hsusp]; [| done].
    exists (composite_body f q), q.
    split; [done |]. split; [apply composite_of_body | done].
  - intros Hconv.
    assert (Hex : ended (paged_loop convert (Datatypes.S k) f q0 st) = Exhausted).
    { destruct (ended (paged_loop convert (Datatypes.S k) f q0 st)) as [| |e] eqn:He;
        [done | done |].
      destruct (paged_loop_raised _ _ _ _ _ _ He) as (p & Hin & Hp).
      specialize (Hconv p Hin). unfold page_values in Hconv. fold convert in Hconv.
      congruence. }
    split; [done |]. by apply paged_loop_converted.
  - apply paged_loop_yielded.
Qed.

End DistinctFacts.

Lemma distinct_pagination_witness :
  ∃ r,
    @distinct sample_utils nat (sample_client as_pages [])
      5 "infos.as_num" None 0%nat = r ∧
    ended r = Exhausted ∧
    yielded r = [PInt 15169; PInt 8075] ∧
    length (requests r) = 2%nat.
Proof.
  destruct (@distinct_pagination sample_utils nat (sample_client as_pages [])
              "infos.as_num" None 0%nat 1 eq_refl)
    as (r & Hrun & _).
  exists r. split; [apply Hrun; lia |].
  rewrite <- (Hrun 2%nat); [| lia]. repeat split; vm_compute; reflexivity.
Defined.

Section TopvaluesFacts.
Context `{Utils} {S : Type} `{Client S}.

Lemma yield_each_length {A B} (f : A → result B) (l : list A) :
  (length (yield_each f l).1 ≤ length l)%nat.
Proof.
  induction l as [|a l IH]; simpl; [done |].
  destruct (f a); simpl; [| lia].
  destruct (yield_each f l). simpl in *. lia.
Qed.

(** [topvalues] yields at most one value for each bucket of the response. *)
Lemma topvalues_length (field : string) (flt : option Query) (topnbr : Z)
  (st : S) :
  (length (topvalues field flt topnbr st).1.1 ≤
   length (result_buckets
             (search_terms st (topvalues_body field flt topnbr)).2))%nat.
Proof.
  unfold topvalues.
  destruct (search_terms st (topvalues_body field flt topnbr)) as [st' res].
  simpl. apply yield_each_length.
Qed.

(** Outside the nested-aggregation branch the terms aggregation carries
    [size = topnbr]. *)
Lemma topvalues_size_plain (field : string) (flt : option Query) (topnbr : Z) :
  d_nested (topvalues_dispatch field flt) = None →
  terms_size (topvalues_body field flt topnbr) = Some (PInt topnbr).
Proof.
  intros Hn. unfold terms_size, terms_of, topvalues_body. rewrite Hn. simpl.
  rewrite lookup_singleton_eq. simpl. rewrite lookup_singleton_eq. simpl.
  by rewrite lookup_insert_eq.
Qed.

End TopvaluesFacts.

Example topvalues_port_body :
  terms_size (@topvalues_body sample_utils "port:open" None 3) = Some (PInt 3) ∧
  terms_size (@topvalues_body sample_utils "httphdr:Server" None 3) = Some (PInt 3) ∧
  terms_size (@topvalues_body sample_utils "infos.country_code" None 3) = Some (PInt 3).
Proof. repeat split; vm_compute; reflexivity. Qed.

Example topvalues_httphdr_name_capped :
  (@topvalues sample_utils nat (sample_client [] header_buckets)
     "httphdr:Server" None 3 0%nat).1.1 =
  [ <["_id" := PStr "server"]> {["count" := PInt 9]};
    <["_id" := PStr "date"]> {["count" := PInt 8]};
    <["_id" := PStr "content-type"]> {["count" := PInt 7]} ].
Proof. vm_compute. reflexivity. Qed.

Example outputproc_ex :
  @outputproc_port sample_utils (PStr "tcp/80") =
    Ok (PList [PStr "tcp"; PInt 80]) ∧
  @outputproc_as sample_utils (PStr "15169, GOOGLE, US") =
    Ok (PList [PInt 15169; PStr "GOOGLE, US"]) ∧
  outputproc_httphdr (PStr "server:nginx:1") =
    Ok (PList [PStr "server"; PStr "nginx:1"]).
Proof. repeat split. Qed.

(** C5 (code defect): in the branch of [httphdr.<subfield>] the terms
    aggregation of the request has no [size], so the engine applies its
    default: with [topnbr = 3] and five header names in the index,
    [topvalues] yields five values. *)
Theorem topvalues_httphdr_subfield_unbounded :
  terms_of (@topvalues_body sample_utils "httphdr.name" None 3) =
    Some (PDict {["field" := PStr "ports.scripts.http-headers.name"]}) ∧
  terms_size (@topvalues_body sample_utils "httphdr.name" None 3) = None ∧
  length (@topvalues sample_utils nat (sample_client [] header_buckets)
            "httphdr.name" None 3 0%nat).1.1 = 5%nat.
Proof. repeat split; vm_compute; reflexivity. Qed.

(** * Further properties *)

(** ** Strings *)

Lemma append_cons (x : Ascii.ascii) (a b : string) :
  String x a +:+ b = String x (a +:+ b).
Proof. reflexivity. Qed.

Lemma append_nil_l (b : string) : EmptyString +:+ b = b.
Proof. reflexivity. Qed.

Lemma prefix_append (s b : string) : String.prefix s (s +:+ b) = true.
Proof.
  induction s as [|x s IH]; [by destruct b |].
  rewrite append_cons. simpl. by destruct (ascii_dec x x).
Qed.

Lemma string_drop_append (s b : string) :
  string_drop (String.length s) (s +:+ b) = b.
Proof. induction s as [|x s IH]; [done |]. rewrite append_cons. apply IH. Qed.

Lemma split1_unfold (sep s : string) :
  split1 sep s =
  if String.prefix sep s then [EmptyString; string_drop (String.length sep) s]
  else match s with
       | EmptyString => [EmptyString]
       | String c r =>
           match split1 sep r with
           | h :: t => String c h :: t
           | [] => [String c EmptyString]
           end
       end.
Proof. by destruct s. Qed.

Lemma has_char_cons_false (c x : Ascii.ascii) (a : string) :
  has_char c (String x a) = false → x ≠ c ∧ has_char c a = false.
Proof.
  simpl. intros [Hx Ha]%orb_false_iff. split; [| done].
  by apply Ascii.eqb_neq.
Qed.

Lemma has_char_append (c : Ascii.ascii) (a b : string) :
  has_char c (a +:+ b) = (has_char c a || has_char c b)%bool.
Proof.
  induction a as [|x a IH]; [done |].
  rewrite append_cons. simpl. by rewrite IH, orb_assoc.
Qed.

Lemma prefix_cons_ne (c x : Ascii.ascii) (sep s : string) :
  x ≠ c → String.prefix (String c sep) (String x s) = false.
Proof. intros Hx. simpl. destruct (ascii_dec c x); [congruence | done]. Qed.

(** [s.split(sep, 1)] cuts at the first separator: what precedes it, when it
    has none of the separator's first character, and all that follows. *)
Lemma split1_first (c : Ascii.ascii) (sep a b : string) :
  has_char c a = false →
  split1 (String c sep) (a +:+ String c sep +:+ b) = [a; b].
Proof.
  induction a as [|x a IH]; intros Ha.
  - rewrite append_nil_l, split1_unfold, prefix_append.
    by rewrite string_drop_append.
  - apply has_char_cons_false in Ha as [Hx Ha].
    rewrite append_cons, split1_unfold, prefix_cons_ne; [| done].
    by rewrite IH.
Qed.

Lemma split1_none (c : Ascii.ascii) (sep a : string) :
  has_char c a = false → split1 (String c sep) a = [a].
Proof.
  induction a as [|x a IH]; intros Ha; [done |].
  apply has_char_cons_false in Ha as [Hx Ha].
  rewrite split1_unfold, prefix_cons_ne; [| done]. by rewrite IH.
Qed.

Lemma split_on_nonempty (c : Ascii.ascii) (s : string) : split_on c s ≠ [].
Proof.
  destruct s as [|x r]; simpl; [done |].
  destruct (Ascii.eqb x c); [done |]. by destruct (split_on c r).
Qed.

Lemma split_on_none (c : Ascii.ascii) (a : string) :
  has_char c a = false → split_on c a = [a].
Proof.
  induction a as [|x a IH]; intros Ha; [done |].
  apply has_char_cons_false in Ha as [Hx Ha].
  simpl. apply Ascii.eqb_neq in Hx as ->. by rewrite IH.
Qed.

Lemma split_on_first (c : Ascii.ascii) (a rest : string) :
  has_char c a = false →
  split_on c (a +:+ String c rest) = a :: split_on c rest.
Proof.
  induction a as [|x a IH]; intros Ha.
  - rewrite append_nil_l. simpl. by rewrite Ascii.eqb_refl.
  - apply has_char_cons_false in Ha as [Hx Ha].
    rewrite append_cons. simpl. apply Ascii.eqb_neq in Hx as ->.
    by rewrite IH.
Qed.

Lemma split_on_join (c : Ascii.ascii) (l : list string) :
  l ≠ [] → Forall (fun x => has_char c x = false) l →
  split_on c (join_with (String c EmptyString) l) = l.
Proof.
  induction l as [|x l IH]; intros Hne Hall; [done |].
  apply Forall_cons in Hall as [Hx Hl].
  destruct l as [|y l]; [by apply split_on_none |].
  change (join_with (String c EmptyString) (x :: y :: l))
    with (x +:+ String c (join_with (String c EmptyString) (y :: l))).
  rewrite split_on_first; [| done]. by rewrite IH.
Qed.

(** ** Connection settings *)

Lemma lstrip_char_slashes (s : string) :
  ∃ n, s = slashes n +:+ lstrip_char "/"%char s ∧
       String.prefix "/" (lstrip_char "/"%char s) = false.
Proof.
  induction s as [|x s (n & Hs & Hp)]; [by exists 0%nat |].
  cbn [lstrip_char]. destruct (Ascii.eqb x "/"%char) eqn:Hx.
  - apply Ascii.eqb_eq in Hx as ->. exists (Datatypes.S n).
    split; [| done]. cbn [slashes]. rewrite append_cons. by rewrite <- Hs.
  - exists 0%nat. split; [done |].
    apply Ascii.eqb_neq in Hx. by apply prefix_cons_ne.
Qed.

Section SettingsFacts.
Variable unquote : string → string.

(** The index prefix is the path without its leading slashes, followed by
    a dash, and [ivre-] when nothing is left of the path. *)
Theorem init_index_prefix (u : url) :
  ∃ n name,
    url_path u = slashes n +:+ name ∧
    String.prefix "/" name = false ∧
    index_prefix (ElasticDB_init unquote u) =
      (if nonempty name then name else "ivre") +:+ "-".
Proof.
  destruct (lstrip_char_slashes (url_path u)) as (n & Hpath & Hp).
  exists n, (lstrip_char "/"%char (url_path u)). split; [done |]. split; [done |].
  unfold ElasticDB_init. destruct (init_credentials _ _) as [[usr pw] hs]. simpl.
  by destruct (nonempty _).
Qed.

(** A network location [user:password@host] gives the unquoted user name
    and password and the host; the password may hold colons and the host
    may hold an at sign.  Without a colon before the at sign the password is
    empty. *)
Theorem init_credentials_parsed (user pw host : string) :
  has_char "@"%char user = false → has_char ":"%char user = false →
  has_char "@"%char pw = false →
  init_credentials unquote (user +:+ ":" +:+ pw +:+ "@" +:+ host) =
    (unquote user, unquote pw,
     if nonempty host then Some [host] else None) ∧
  init_credentials unquote (user +:+ "@" +:+ host) =
    (unquote user, EmptyString,
     if nonempty host then Some [host] else None).
Proof.
  intros Hat Hcolon Hpw. split.
  - unfold init_credentials.
    assert (Hup : has_char "@"%char (user +:+ ":" +:+ pw) = false).
    { rewrite has_char_append, Hat. simpl. exact Hpw. }
    replace (user +:+ ":" +:+ pw +:+ "@" +:+ host)
      with ((user +:+ ":" +:+ pw) +:+ "@" +:+ host)
      by (by rewrite !string_app_assoc3).
    rewrite has_char_append, (has_char_append _ "@"). simpl.
    rewrite orb_true_r.
    rewrite (split1_first "@"%char EmptyString); [| done].
    rewrite has_char_append. simpl. rewrite orb_true_r.
    by rewrite (split1_first ":"%char EmptyString).
  - unfold init_credentials.
    rewrite has_char_append. simpl. rewrite orb_true_r.
    rewrite (split1_first "@"%char EmptyString); [| done].
    by rewrite Hcolon.
Qed.

(** Without an at sign there are no credentials, and the network location,
    when there is one, is the host. *)
Theorem init_credentials_none (netloc : string) :
  has_char "@"%char netloc = false →
  init_credentials unquote netloc =
    (EmptyString, EmptyString,
     if nonempty netloc then Some [netloc] else None).
Proof. intros Hat. unfold init_credentials. rewrite Hat. by destruct netloc. Qed.

End SettingsFacts.

(** *** The query string *)

Lemma param_item_render (item : string * option string) :
  param_ok item = true → param_item (render_param item) = item.
Proof.
  destruct item as [k [v|]]; unfold param_ok; simpl;
    intros [[[_ _]%andb_prop Heq%negb_true_iff]%andb_prop _]%andb_prop.
  - unfold param_item. rewrite has_char_append. simpl. rewrite orb_true_r.
    by rewrite (split1_first "="%char EmptyString).
  - unfold param_item. by rewrite Heq.
Qed.

Lemma render_param_no_amp (item : string * option string) :
  param_ok item = true → has_char "&"%char (render_param item) = false.
Proof.
  destruct item as [k [v|]]; unfold param_ok; simpl;
    intros [[[_ Hk%negb_true_iff]%andb_prop _]%andb_prop Hv]%andb_prop.
  - apply negb_true_iff in Hv. rewrite has_char_append, Hk. simpl. exact Hv.
  - exact Hk.
Qed.

Lemma render_param_nonempty (item : string * option string) :
  param_ok item = true → nonempty (render_param item) = true.
Proof.
  destruct item as [[|x k] [v|]]; unfold param_ok; simpl; done.
Qed.

Lemma fold_params_render (items : list (string * option string))
  (d : gmap string (option string)) :
  Forall (fun item => param_ok item = true) items →
  fold_left (fun d x => let '(k, v) := param_item x in <[k := v]> d)
    (render_param <$> items) d =
  fold_left (fun d item => <[item.1 := item.2]> d) items d.
Proof.
  intros Hall. revert d. induction Hall as [|item items Hok _ IH]; intros d.
  - done.
  - simpl. rewrite param_item_render; [| done]. destruct item as [k v]. apply IH.
Qed.

Lemma filter_nonempty_all (l : list string) :
  Forall (fun x => nonempty x = true) l →
  filter (fun x => nonempty x = true) l = l.
Proof.
  induction 1 as [|x l Hx _ IH]; [done |].
  rewrite filter_cons_True; [| done]. by rewrite IH.
Qed.

Lemma parse_params_render (items : list (string * option string)) :
  Forall (fun item => param_ok item = true) items →
  parse_params (join_with "&" (render_param <$> items)) =
  fold_left (fun d item => <[item.1 := item.2]> d) items ∅.
Proof.
  intros Hall. unfold parse_params.
  destruct items as [|item items]; [done |].
  rewrite (split_on_join "&"%char).
  - rewrite filter_nonempty_all; [by apply fold_params_render |].
    apply Forall_fmap. eapply Forall_impl; [exact Hall |].
    intros x Hx. by apply render_param_nonempty.
  - done.
  - apply Forall_fmap. eapply Forall_impl; [exact Hall |].
    intros x Hx. by apply render_param_no_amp.
Qed.

(** Reading back a query string written from items [key=value] or [key]:
    each key has the value of its last item, and a key without a value has
    [None]. *)
Theorem parse_params_rendered (items : list (string * option string)) :
  Forall (fun item => param_ok item = true) items →
  parse_params (join_with "&" (render_param <$> items)) =
  fold_left (fun d item => <[item.1 := item.2]> d) items ∅.
Proof.
  intros Hall. unfold parse_params.
  destruct items as [|item items]; [done |].
  rewrite (split_on_join "&"%char).
  - rewrite filter_nonempty_all; [by apply fold_params_render |].
    apply Forall_fmap. eapply Forall_impl; [exact Hall |].
    intros x Hx. by apply render_param_nonempty.
  - done.
  - apply Forall_fmap. eapply Forall_impl; [exact Hall |].
    intros x Hx. by apply render_param_no_amp.
Qed.

Lemma parse_params_rendered_witness :
  parse_params "indexname_hosts=scans&debug&debug=1" =
  <["debug" := Some "1"]> (<["indexname_hosts" := Some "scans"]> ∅).
Proof.
  change "indexname_hosts=scans&debug&debug=1"
    with (join_with "&" (render_param <$>
            [("indexname_hosts", Some "scans"); ("debug", None);
             ("debug", Some "1")])).
  rewrite parse_params_rendered.
  - simpl. apply map_eq. intros k.
    destruct (decide (k = "debug")) as [->|Hk]; [by rewrite !lookup_insert_eq |].
    by rewrite !(lookup_insert_ne _ "debug").
  - repeat constructor.
Defined.

Section ViewFacts.
Variable unquote : string → string.

Lemma settings_eta (s : settings) (p : gmap string (option string)) :
  p = params s →
  {| username := username s; password := password s; hosts := hosts s;
     index_prefix := index_prefix s; params := p |} = s.
Proof. intros ->. by destruct s. Qed.

(** A view whose query string names no index uses [<prefix>views] and keeps
    all its parameters; a last item [indexname_hosts=name] names the index
    [<prefix>name] and is taken out of the parameters, and a last item
    [indexname_hosts] without a value names it [<prefix>None]. *)
Theorem view_index_name (u : url) (items : list (string * option string)) :
  Forall (fun item => param_ok item = true) items →
  ((∀ item, item ∈ items → item.1 ≠ "indexname_hosts") →
   url_query u = join_with "&" (render_param <$> items) →
   ElasticDBView_init unquote u =
     (ElasticDB_init unquote u,
      [index_prefix (ElasticDB_init unquote u) +:+ "views"])) ∧
  (∀ value,
     param_ok ("indexname_hosts", value) = true →
     url_query u =
       join_with "&" (render_param <$> (items ++ [("indexname_hosts", value)])) →
     (ElasticDBView_init unquote u).2 =
       [index_prefix (ElasticDB_init unquote u) +:+ default "None" value] ∧
     params (ElasticDBView_init unquote u).1 =
       delete "indexname_hosts"
         (fold_left (fun d item => <[item.1 := item.2]> d) items ∅)).
Proof.
  intros Hall. split.
  - intros Hkeys Hq.
    assert (Hnone : params (ElasticDB_init unquote u) !! "indexname_hosts" = None).
    { unfold ElasticDB_init. destruct (init_credentials _ _) as [[usr pw] hs].
      simpl. rewrite Hq, parse_params_render; [| done].
      clear Hq Hall. revert Hkeys.
      induction items as [|item items IH] using rev_ind; intros Hkeys; [done |].
      rewrite fold_left_app. simpl. rewrite lookup_insert_ne.
      - apply IH. intros x Hx. apply Hkeys, elem_of_app. by left.
      - apply Hkeys, elem_of_app. right. by left. }
    unfold ElasticDBView_init. rewrite Hnone. f_equal.
    apply settings_eta. by apply delete_id.
  - intros value Hvalue Hq.
    assert (Hparams : params (ElasticDB_init unquote u) =
              <["indexname_hosts" := value]>
                (fold_left (fun d item => <[item.1 := item.2]> d) items ∅)).
    { unfold ElasticDB_init. destruct (init_credentials _ _) as [[usr pw] hs].
      simpl. rewrite Hq, parse_params_render.
      - by rewrite fold_left_app.
      - apply Forall_app. split; [done |]. by constructor. }
    unfold ElasticDBView_init. rewrite Hparams. simpl.
    rewrite lookup_insert_eq. split.
    + by destruct value.
    + apply delete_insert_eq.
Qed.

End ViewFacts.

Lemma view_index_name_witness :
  (ElasticDBView_init (fun s => s)
     {| url_netloc := "localhost:9200"; url_path := "/scans";
        url_query := "debug&indexname_hosts=hosts" |}).2 = ["scans-hosts"].
Proof.
  destruct (view_index_name (fun s => s)
     {| url_netloc := "localhost:9200"; url_path := "/scans";
        url_query := "debug&indexname_hosts=hosts" |}
     [("debug", None)]) as [_ Hlast].
  - repeat constructor.
  - destruct (Hlast (Some "hosts") eq_refl eq_refl) as [Hidx _]. exact Hidx.
Defined.

Lemma init_credentials_parsed_witness :
  init_credentials (fun s => s) "ivre:s3:cret@db@example" =
    ("ivre", "s3:cret", Some ["db@example"]).
Proof.
  exact (proj1 (init_credentials_parsed (fun s => s) "ivre" "s3:cret"
                  "db@example" eq_refl eq_refl eq_refl)).
Defined.

Lemma init_credentials_none_witness :
  init_credentials (fun s => s) "localhost:9200" =
    (EmptyString, EmptyString, Some ["localhost:9200"]).
Proof. by apply init_credentials_none. Defined.

(** ** Pattern Translator *)

Lemma land_lnot_pow2_zero (flags : Z) (n : Z) :
  0 ≤ n →
  Z.land flags (Z.lnot (2 ^ n)) = 0 ↔
  ∀ i, 0 ≤ i → Z.testbit flags i = true → i = n.
Proof.
  intros Hn. split.
  - intros Hz i Hi Hbit.
    pose proof (f_equal (fun z => Z.testbit z i) Hz) as Hb. simpl in Hb.
    rewrite Z.land_spec, Z.lnot_spec, Z.bits_0, Hbit in Hb by done.
    rewrite Z.pow2_bits_eqb in Hb by done. simpl in Hb.
    apply negb_false_iff, Z.eqb_eq in Hb. done.
  - intros Hbits. apply Z.bits_inj'. intros i Hi.
    rewrite Z.land_spec, Z.lnot_spec, Z.bits_0 by done.
    rewrite Z.pow2_bits_eqb by done.
    destruct (Z.testbit flags i) eqn:Hbit; [| done].
    rewrite (Hbits i Hi Hbit). by rewrite Z.eqb_refl.
Qed.

(** [_get_pattern] returns the pattern of [utils.regexp2pattern] whatever
    the flags are, and logs one warning exactly when a flag other than
    [re.UNICODE], the bit 5, is set. *)
Theorem get_pattern_warning `{Utils} (r : regexp) :
  (_get_pattern_logged r).1 = _get_pattern r ∧
  ((_get_pattern_logged r).2 = [] ↔
   ∀ i, 0 ≤ i → Z.testbit (regexp2pattern r).2 i = true → i = 5) ∧
  ((_get_pattern_logged r).2 = [] ∨
   (_get_pattern_logged r).2 = [regexp2pattern r]).
Proof.
  unfold _get_pattern_logged, _get_pattern.
  destruct (regexp2pattern r) as [pattern flags]. simpl.
  pose proof (land_lnot_pow2_zero flags 5 ltac:(lia)) as Hz.
  change (2 ^ 5) with re_UNICODE in Hz.
  destruct (Z.eqb_spec (Z.land flags (Z.lnot re_UNICODE)) 0) as [Heq|Hne]; simpl.
  - split; [done |]. split; [| by left]. split; [intros _; by apply Hz | done].
  - split; [done |]. split; [| by right].
    split; [done |]. intros Hbits. by apply Hz in Hbits.
Qed.

Example get_pattern_flags :
  (@_get_pattern_logged sample_utils {| re_pattern := "nginx"; re_flags := 32 |}).2 = [] ∧
  (@_get_pattern_logged sample_utils {| re_pattern := "nginx"; re_flags := 2 |}).2 =
    [(".*nginx.*", 2)] ∧
  (@_get_pattern_logged sample_utils {| re_pattern := "nginx"; re_flags := 34 |}).2 =
    [(".*nginx.*", 34)].
Proof. repeat split. Qed.

(** ** Record Store, further *)

Section RecordStoreMore.
Context `{Utils} `{Engine}.

Lemma flip_coordinates_insert (host : pydict) (k : string) (v : pyval) :
  k ≠ "infos" →
  flip_coordinates (<[k := v]> host) = insert k v <$> flip_coordinates host.
Proof.
  intros Hk. unfold flip_coordinates. rewrite lookup_insert_ne; [| done].
  destruct (py_contains "coordinates" (default (PDict ∅) (host !! "infos")))
    as [[|]|e]; simpl; try done.
  destruct (default (PDict ∅) (host !! "infos")); try done.
  destruct (d !! "coordinates") as [coords|]; [| done].
  destruct (py_reversed coords); simpl; [| done].
  by rewrite insert_insert_ne.
Qed.

Lemma flip_coordinates_involutive (host : pydict) :
  host_record host = true →
  ∃ flipped, flip_coordinates host = Ok flipped ∧
             flip_coordinates flipped = Ok host ∧
             host_record flipped = true.
Proof.
  intros Hrec. destruct (coordinates host) as [coords|] eqn:Hcoords.
  - unfold coordinates in Hcoords. unfold host_record in Hrec.
    destruct (host !! "infos") as [[| | | | |infos]|] eqn:Hi; try done.
    rewrite Hcoords in Hrec. destruct coords as [| | | |coords|]; try done.
    eexists. split; [by apply flip_coordinates_list |]. split.
    + erewrite flip_coordinates_list;
        [| apply lookup_insert_eq | apply lookup_insert_eq].
      f_equal. rewrite !insert_insert_eq, rev_involutive.
      rewrite (insert_id infos); [| done]. by apply insert_id.
    + unfold host_record. rewrite lookup_insert_eq. by rewrite lookup_insert_eq.
  - exists host. by rewrite flip_coordinates_absent.
Qed.

Lemma flip_coordinates_frame (host flipped : pydict) (k : string) :
  flip_coordinates host = Ok flipped → k ≠ "infos" →
  flipped !! k = host !! k.
Proof.
  unfold flip_coordinates.
  destruct (py_contains "coordinates" (default (PDict ∅) (host !! "infos")))
    as [[|]|e]; simpl; try done; [| by intros [= <-]].
  destruct (default (PDict ∅) (host !! "infos")); try done.
  destruct (d !! "coordinates") as [coords|]; [| done].
  destruct (py_reversed coords); simpl; [| done].
  intros [= <-] Hk. by rewrite lookup_insert_ne.
Qed.

Lemma store_then_get_host (host : pydict) (idx : list hit) :
  host_record host = true →
  ∃ body,
    store_host host idx = Ok (body, index_doc idx body) ∧
    get_host {| _id := new_id idx; _source := body |} =
      Ok (fold_left decode_datetime datetime_fields
            (<["_id" := PStr (new_id idx)]> host)).
Proof.
  intros Hrec.
  destruct (flip_coordinates_involutive host Hrec) as (body & Hflip & Hback & _).
  exists body. split.
  - unfold store_host. by rewrite Hflip.
  - unfold get_host. simpl. rewrite flip_coordinates_insert; [| done].
    by rewrite Hback.
Qed.


(** [store_host] changes the dict it is given: storing the same dict a
    second time reverses the coordinates again, so that the second record
    holds them in the order the host had at first, and the caller's dict is
    back to what it was. *)
Theorem store_host_twice (host : pydict) (idx : list hit) :
  host_record host = true →
  ∃ body idx1,
    store_host host idx = Ok (body, idx1) ∧
    store_host body idx1 =
      Ok (host, idx ++ [{| _id := new_id idx; _source := body |};
                        {| _id := new_id idx1; _source := host |}]).
Proof.
  intros Hrec.
  destruct (flip_coordinates_involutive host Hrec) as (body & Hflip & Hback & _).
  exists body, (index_doc idx body). unfold store_host.
  rewrite Hflip. simpl. rewrite Hback. simpl.
  split; [done |]. unfold index_doc. by rewrite <- app_assoc.
Qed.

(** Coordinates that are neither a list nor a string, and an [infos] that
    is no container, make [store_host] raise a [TypeError]; nothing is
    indexed then. *)
Theorem store_host_rejects (host : pydict) (idx : list hit) :
  (∀ infos coords,
     host !! "infos" = Some (PDict infos) →
     infos !! "coordinates" = Some coords →
     match coords with PList _ | PStr _ => False | _ => True end →
     store_host host idx = Raise (TypeError "object is not subscriptable")) ∧
  (∀ infos,
     host !! "infos" = Some infos →
     match infos with PNone | PBool _ | PInt _ => True | _ => False end →
     store_host host idx = Raise (TypeError "argument is not iterable")).
Proof.
  split.
  - intros infos coords Hi Hc Hbad. unfold store_host, flip_coordinates.
    rewrite Hi. simpl. rewrite Hc. simpl. by destruct coords.
  - intros infos Hi Hbad. unfold store_host, flip_coordinates.
    rewrite Hi. by destruct infos.
Qed.

Lemma yield_each_all {A B} (f : A → result B) (P : A → B → Prop) (l : list A) :
  Forall (fun a => ∃ b, f a = Ok b ∧ P a b) l →
  ∃ bs, yield_each f l = (bs, None) ∧ Forall2 P l bs.
Proof.
  induction 1 as [|a l (b & Hb & HP) _ (bs & Hbs & Hall)].
  - by exists [].
  - exists (b :: bs). simpl. rewrite Hb, Hbs. split; [done |]. by constructor.
Qed.

Lemma host_record_insert (host : pydict) (k : string) (v : pyval) :
  k ≠ "infos" → host_record (<[k := v]> host) = host_record host.
Proof. intros Hk. unfold host_record. by rewrite lookup_insert_ne. Qed.

Lemma get_host_id (rec : hit) :
  host_record (_source rec) = true → "_id" ∉ datetime_fields →
  ∃ host, get_host rec = Ok host ∧ host !! "_id" = Some (PStr (_id rec)).
Proof.
  intros Hrec Hid. unfold get_host.
  destruct (flip_coordinates_involutive (<["_id" := PStr (_id rec)]> (_source rec)))
    as (flipped & Hflip & _).
  { by rewrite host_record_insert. }
  rewrite Hflip. simpl. eexists. split; [done |].
  rewrite decode_datetime_other; [| done].
  rewrite (flip_coordinates_frame _ _ _ Hflip); [| done].
  apply lookup_insert_eq.
Qed.

(** On an index of host records [get] ends without an exception and yields
    one host for each record the query matches, in order, each with the
    identifier of its record under [_id]. *)
Theorem get_one_per_record (spec : Query) (idx : list hit) :
  Forall (fun rec => host_record (_source rec) = true) idx →
  "_id" ∉ datetime_fields →
  ∃ found,
    get spec None idx = (found, None) ∧
    Forall2 (fun rec host => host !! "_id" = Some (PStr (_id rec)))
      (filter (fun rec => matches spec (_source rec) = true) idx) found.
Proof.
  intros Hall Hid. unfold get, scan.
  destruct (yield_each_all get_host
              (fun rec host => host !! "_id" = Some (PStr (_id rec)))
              ((fun rec => {| _id := _id rec; _source := _source rec |}) <$>
               filter (fun rec => matches spec (_source rec) = true) idx))
    as (found & Hget & Hids).
  - apply Forall_fmap. apply Forall_forall. intros rec Hin.
    apply list_elem_of_filter in Hin as [_ Hin].
    rewrite Forall_forall in Hall. specialize (Hall rec Hin).
    destruct rec as [ident source]. simpl. by apply get_host_id.
  - exists found. split; [exact Hget |].
    apply Forall2_fmap_l in Hids. exact Hids.
Qed.

Lemma filter_other_ids (s : string) (idx : list hit) :
  s ∉ _id <$> idx → filter (fun rec => _id rec ≠ s) idx = idx.
Proof.
  induction idx as [|rec idx IH]; [done |].
  rewrite fmap_cons, not_elem_of_cons. intros [Hne Hrest].
  rewrite filter_cons_True; [| congruence]. by rewrite IH.
Qed.

(** A record that was stored, read back with [get] and given to [remove]
    is removed, and the index is what it was before the host was stored,
    provided the engine gave the record an identifier no other record
    has. *)
Theorem store_get_remove (host : pydict) (idx : list hit) :
  host_record host = true →
  "_id" ∉ datetime_fields →
  new_id idx ∉ _id <$> idx →
  ∃ body fetched,
    store_host host idx = Ok (body, index_doc idx body) ∧
    get_host {| _id := new_id idx; _source := body |} = Ok fetched ∧
    remove fetched (index_doc idx body) = Removed idx.
Proof.
  intros Hrec Hid Hfresh.
  destruct (store_then_get_host host idx Hrec) as (body & Hstore & Hget).
  exists body. eexists. split; [exact Hstore |]. split; [exact Hget |].
  unfold remove. rewrite decode_datetime_other; [| done].
  rewrite lookup_insert_eq. unfold delete_doc, index_doc.
  rewrite existsb_app. simpl. rewrite String.eqb_refl, orb_true_r.
  rewrite filter_app, filter_cons_False, filter_nil, app_nil_r.
  - by rewrite filter_other_ids.
  - simpl. by intros Hne.
Qed.

(** A host that carries no [_id], as before it is stored, cannot be
    removed: [remove] raises a [KeyError] and leaves the index alone; and
    an identifier no record has removes nothing. *)
Theorem remove_unknown (host : pydict) (idx : list hit) :
  (host !! "_id" = None → remove host idx = Failed (KeyError "_id")) ∧
  (∀ s, host !! "_id" = Some (PStr s) → s ∉ _id <$> idx →
        remove host idx = NotFound).
Proof.
  split.
  - intros Hid. unfold remove. by rewrite Hid.
  - intros s Hid Hs. unfold remove, delete_doc. rewrite Hid.
    replace (existsb (fun rec => String.eqb (_id rec) s) idx) with false; [done |].
    symmetry. apply not_true_is_false. intros Hex.
    apply existsb_exists in Hex as (rec & Hin & Heq).
    apply String.eqb_eq in Heq. apply Hs. apply list_elem_of_fmap.
    exists rec. split; [done |]. by apply list_elem_of_In.
Qed.

End RecordStoreMore.

(** ** Aggregation Engine, further *)

Section PaginationMore.
Context `{Utils} {S : Type} `{Client S}.

(** [distinct] goes on as long as the responses carry an [after_key] and
    [fix_result] raises on none of their bucket keys: when that holds of
    each of the first [n] responses, a run bounded by [n] requests sends all
    of them and is not at its end. *)
Theorem distinct_goes_on (n : nat) (field : string) (flt : option Query)
  (st : S) :
  (∀ k, (k < n)%nat →
        after_key (page_at k (distinct_flt field flt) (composite_query field) st)
          ≠ None ∧
        (page_values field
           (page_at k (distinct_flt field flt) (composite_query field) st)).2
          = None) →
  ended (distinct n field flt st) = Suspended ∧
  length (requests (distinct n field flt st)) = n ∧
  length (responses (distinct n field flt st)) = n.
Proof.
  intros Hk. unfold distinct. rewrite distinct_loop_paged.
  destruct (paged_loop_suspended _ n _ _ st Hk) as [Hend Hlen].
  split; [done |]. split; [done |]. by rewrite <- paged_loop_lengths.
Qed.

Variable flt_and1 : Query → Query.



End PaginationMore.

(** *** topvalues *)

Section TopvaluesMore.
Context `{Utils} {S : Type} `{Client S}.

Lemma and_script_flt_and (flt : Query) (values : option script_values) :
  ∃ q, and_script flt values = flt_and flt q.
Proof.
  unfold and_script, searchscript. simpl.
  destruct values as [v|]; simpl; by eexists.
Qed.

Lemma dispatch_filter (field : string) (flt : option Query) :
  d_flt (topvalues_dispatch field flt) = default flt_empty flt ∨
  ∃ q, d_flt (topvalues_dispatch field flt) = And (default flt_empty flt) q.
Proof.
  unfold topvalues_dispatch.
  repeat match goal with
         | |- context [if ?b then _ else _] => destruct b
         end; simpl; try (right; by eexists); try (by left);
    right; apply and_script_flt_and.
Qed.

(** In every branch the filter [topvalues] sends is the caller's filter,
    alone or in conjunction with one more condition: no request matches a
    document the caller's filter does not match. *)
Theorem topvalues_filter_narrows (atom : Query → bool) (field : string)
  (flt : option Query) (topnbr : Z) :
  holds atom (body_query (topvalues_body field flt topnbr)) = true →
  holds atom (default flt_empty flt) = true.
Proof.
  unfold topvalues_body. simpl.
  destruct (dispatch_filter field flt) as [-> | [q ->]]; [done |].
  simpl. by intros [? _]%andb_prop.
Qed.

(** For every pseudo-field that does not start with [httphdr.] the terms
    aggregation of the request carries [size = topnbr]. *)
Theorem topvalues_size_outside_nested (field : string) (flt : option Query)
  (topnbr : Z) :
  String.prefix "httphdr." field = false →
  terms_size (topvalues_body field flt topnbr) = Some (PInt topnbr).
Proof.
  intros Hp. apply topvalues_size_plain.
  unfold topvalues_dispatch. rewrite Hp.
  repeat match goal with
         | |- context [if ?b then _ else _] => destruct b
         end; done.
Qed.

Lemma yield_each_ok {A B} (f : A → result B) (g : A → B) (l : list A) :
  (∀ a, f a = Ok (g a)) → yield_each f l = (g <$> l, None).
Proof.
  intros Hf. induction l as [|a l IH]; [done |].
  simpl. by rewrite Hf, IH.
Qed.

Lemma dispatch_outputproc (field : string) (flt : option Query) :
  String.eqb field "as" = false → String.eqb field "port" = false →
  String.prefix "port:" field = false → String.eqb field "httphdr" = false →
  d_outputproc (topvalues_dispatch field flt) = None.
Proof.
  intros H1 H2 H3 H4. unfold topvalues_dispatch.
  rewrite H1, H2, H3, H4. simpl.
  repeat match goal with
         | |- context [if ?b then _ else _] => destruct b
         end; done.
Qed.

(** For a pseudo-field without an output post-processor, that is any field
    but [as], [port], [port:...] and [httphdr] (so also [httphdr:<name>]
    and [httphdr.<subfield>]), [topvalues] raises nothing and yields, for
    each bucket of the response and in order, the bucket's key under [_id]
    and its document count. *)
Theorem topvalues_raw_keys (field : string) (flt : option Query) (topnbr : Z)
  (st : S) :
  String.eqb field "as" = false → String.eqb field "port" = false →
  String.prefix "port:" field = false → String.eqb field "httphdr" = false →
  (topvalues field flt topnbr st).1 =
    ((fun res => <["_id" := key res]> {["count" := PInt (doc_count res)]}) <$>
       result_buckets (search_terms st (topvalues_body field flt topnbr)).2,
     None).
Proof.
  intros H1 H2 H3 H4. unfold topvalues.
  rewrite dispatch_outputproc by done.
  destruct (search_terms st (topvalues_body field flt topnbr)) as [st' res].
  simpl. by apply yield_each_ok.
Qed.

End TopvaluesMore.

Section OutputprocFacts.
Context `{Utils}.

(** The post-processors cut a bucket key at its first separator only: a
    header value may hold colons and an AS name may hold commas.  The
    number of an AS and the port are what [int()] reads, a decimal literal
    when they are written in printable ASCII characters. *)
Theorem outputproc_first_separator :
  (∀ name value,
     has_char ":"%char name = false →
     outputproc_httphdr (PStr (name +:+ ":" +:+ value)) =
     Ok (PList [PStr name; PStr value])) ∧
  (∀ num name n,
     has_char ","%char num = false → int_literal num = Some n →
     outputproc_as (PStr (num +:+ ", " +:+ name)) =
     Ok (PList [PInt n; PStr name])) ∧
  (∀ proto port n,
     has_char "/"%char proto = false → int_literal port = Some n →
     outputproc_port (PStr (proto +:+ "/" +:+ port)) =
     Ok (PList [PStr proto; PInt n])) ∧
  (∀ num name n,
     has_char ","%char num = false →
     plain_ascii num = true → parse_int num = Some n →
     outputproc_as (PStr (num +:+ ", " +:+ name)) =
     Ok (PList [PInt n; PStr name])) ∧
  (∀ proto port n,
     has_char "/"%char proto = false →
     plain_ascii port = true → parse_int port = Some n →
     outputproc_port (PStr (proto +:+ "/" +:+ port)) =
     Ok (PList [PStr proto; PInt n])).
Proof.
  assert (Has : ∀ num name n,
            has_char ","%char num = false → int_literal num = Some n →
            outputproc_as (PStr (num +:+ ", " +:+ name)) =
            Ok (PList [PInt n; PStr name])).
  { intros num name n Hn Hp. unfold outputproc_as. simpl.
    rewrite (split1_first ","%char " "); [| done]. simpl.
    by rewrite Hp. }
  assert (Hport : ∀ proto port n,
            has_char "/"%char proto = false → int_literal port = Some n →
            outputproc_port (PStr (proto +:+ "/" +:+ port)) =
            Ok (PList [PStr proto; PInt n])).
  { intros proto port n Hp Hn. unfold outputproc_port. simpl.
    rewrite (split1_first "/"%char EmptyString); [| done]. simpl.
    by rewrite Hn. }
  split; [| split; [| split; [| split]]].
  - intros name value Hn. unfold outputproc_httphdr. simpl.
    by rewrite (split1_first ":"%char EmptyString).
  - exact Has.
  - exact Hport.
  - intros num name n Hc Hplain Hn. apply Has; [done |].
    by rewrite int_literal_plain.
  - intros proto port n Hp Hplain Hn. apply Hport; [done |].
    by rewrite int_literal_plain.
Qed.

(** A key without the separator gives a tuple of one component, a key that
    is not a string an [AttributeError], and a port or an AS number that
    [int()] does not read as a literal a [ValueError]; so does any port or
    AS number of printable ASCII characters that is no decimal literal. *)
Theorem outputproc_edge_cases :
  (∀ key, has_char "/"%char key = false →
          outputproc_port (PStr key) = Ok (PList [PStr key])) ∧
  (∀ key, has_char ":"%char key = false →
          outputproc_httphdr (PStr key) = Ok (PList [PStr key])) ∧
  (∀ proto port,
     has_char "/"%char proto = false → int_literal port = None →
     outputproc_port (PStr (proto +:+ "/" +:+ port)) =
     Raise (ValueError "invalid literal for int() with base 10")) ∧
  (∀ num, has_char ","%char num = false → int_literal num = None →
          outputproc_as (PStr num) =
          Raise (ValueError "invalid literal for int() with base 10")) ∧
  (∀ key, match key with PStr _ => False | _ => True end →
          ∀ proc, proc ∈ [outputproc_as; outputproc_port; outputproc_httphdr] →
          proc key = Raise (AttributeError "object has no attribute 'split'")) ∧
  (∀ proto port,
     has_char "/"%char proto = false →
     plain_ascii port = true → parse_int port = None →
     outputproc_port (PStr (proto +:+ "/" +:+ port)) =
     Raise (ValueError "invalid literal for int() with base 10")) ∧
  (∀ num, has_char ","%char num = false →
          plain_ascii num = true → parse_int num = None →
          outputproc_as (PStr num) =
          Raise (ValueError "invalid literal for int() with base 10")).
Proof.
  assert (Hport : ∀ proto port,
            has_char "/"%char proto = false → int_literal port = None →
            outputproc_port (PStr (proto +:+ "/" +:+ port)) =
            Raise (ValueError "invalid literal for int() with base 10")).
  { intros proto port Hp Hn. unfold outputproc_port. simpl.
    rewrite (split1_first "/"%char EmptyString); [| done]. simpl.
    by rewrite Hn. }
  assert (Has : ∀ num, has_char ","%char num = false → int_literal num = None →
            outputproc_as (PStr num) =
            Raise (ValueError "invalid literal for int() with base 10")).
  { intros num Hc Hn. unfold outputproc_as. simpl.
    rewrite (split1_none ","%char " "); [| done]. simpl. by rewrite Hn. }
  split; [| split; [| split; [| split; [| split; [| split]]]]].
  - intros key Hk. unfold outputproc_port. simpl.
    by rewrite (split1_none "/"%char EmptyString).
  - intros key Hk. unfold outputproc_httphdr. simpl.
    by rewrite (split1_none ":"%char EmptyString).
  - exact Hport.
  - exact Has.
  - intros key Hkey proc Hproc.
    repeat (apply elem_of_cons in Hproc as [->|Hproc]; [by destruct key |]).
    by apply not_elem_of_nil in Hproc.
  - intros proto port Hp Hplain Hn. apply Hport; [done |].
    by rewrite int_literal_plain.
  - intros num Hc Hplain Hn. apply Has; [done |].
    by rewrite int_literal_plain.
Qed.

End OutputprocFacts.

(** ** Schema Builder, further *)

Lemma split_dot_split_on (s : string) : split_dot s = split_on dot s.
Proof.
  induction s as [|x s IH]; [done |]. simpl. by rewrite IH.
Qed.

(** A field name without a dot names a key of the tree itself: declaring it
    writes [{"type": fldtype}] there, over whatever the key held. *)
Theorem declare_top_level (fldtype : string) (res : pydict) (fld : string) :
  has_char dot fld = false →
  declare fldtype res fld = <[fld := leaf fldtype]> res.
Proof.
  intros Hdot. unfold declare.
  rewrite split_dot_split_on, split_on_none; [| done]. done.
Qed.

Lemma declare_top_level_witness :
  declare "ip" (<["addr" := nested_with {["port" := leaf "long"]}]> ∅) "addr" =
  {["addr" := leaf "ip"]}.
Proof.
  rewrite declare_top_level by reflexivity. vm_compute. reflexivity.
Defined.

Lemma update_at_app (p q : list string) (f : pydict → pydict) (d : pydict) :
  update_at (p ++ q) f d = update_at p (update_at q f) d.
Proof.
  revert d. induction p as [|k p IH]; intros d; [done |].
  simpl. destruct (d !! k) as [[| | | | |sub]|]; try done. by rewrite IH.
Qed.

Lemma setdefault_properties_of (node props : pydict) :
  properties_of node = Some props →
  setdefault_properties node !! "properties" = Some (PDict props) ∧
  <["properties" := PDict props]> node = setdefault_properties node.
Proof.
  unfold properties_of, setdefault_properties.
  destruct (node !! "properties") as [[| | | | |d]|] eqn:Hp; try done.
  - intros [= <-]. split; [done |]. by apply insert_id.
  - intros [= <-]. split; [apply lookup_insert_eq | done].
Qed.

(** A field directly below a top-level path that is nested is written into
    the properties of that path, beside the children already there; its
    dotted name does not become a key of the tree. *)
Theorem declare_under_nested (fldtype : string) (res node props : pydict)
  (parent child : string) :
  has_char dot parent = false → has_char dot child = false →
  res !! parent = Some (PDict node) →
  node !! "type" = Some (PStr "nested") →
  properties_of node = Some props →
  declare fldtype res (parent +:+ "." +:+ child) =
  <[parent := PDict (<["properties" := PDict (<[child := leaf fldtype]> props)]>
                       node)]> res.
Proof.
  intros Hp Hc Hres Htype Hprops. unfold declare.
  rewrite split_dot_split_on.
  change (parent +:+ "." +:+ child) with (parent +:+ String dot child).
  rewrite split_on_first, split_on_none by done.
  cbn [removelast List.last walk compound dict_at default].
  assert (Hn : is_nested res parent = true).
  { unfold is_nested. by rewrite Hres, Htype. }
  change (id res) with res. rewrite Hn. cbn [app compound].
  destruct (setdefault_properties_of node props Hprops) as [Hlook Hset].
  cbn [update_at]. rewrite Hres, lookup_insert_eq, Hlook.
  rewrite insert_insert_eq. f_equal. f_equal.
  rewrite <- Hset. by rewrite insert_insert_eq.
Qed.

Lemma declare_under_nested_witness :
  declare "ip" {["ports" := leaf "nested"]} "ports.state_reason_ip" =
  {["ports" := nested_with {["state_reason_ip" := leaf "ip"]}]}.
Proof.
  rewrite (declare_under_nested "ip" _ {["type" := PStr "nested"]} ∅
             "ports" "state_reason_ip") by reflexivity.
  vm_compute. reflexivity.
Defined.

(** *** Nested paths stay nested *)

Lemma expand_app (a b : list string) : expand (a ++ b) = expand a ++ expand b.
Proof. induction a as [|k a IH]; [done |]. simpl. by rewrite IH. Qed.

Lemma nested_at_nil (d : pydict) (k : string) :
  nested_at d [] k = is_nested d k.
Proof. reflexivity. Qed.

Lemma nested_at_cons (d : pydict) (p : string) (pks : list string) (k : string) :
  nested_at d (expand (p :: pks)) k =
  match d !! p with
  | Some (PDict node) =>
      match node !! "properties" with
      | Some (PDict props) => nested_at props (expand pks) k
      | _ => false
      end
  | _ => false
  end.
Proof.
  unfold nested_at. cbn [expand dict_at].
  destruct (d !! p) as [[| | | | |node]|]; try done.
  by destruct (node !! "properties") as [[| | | | |props]|].
Qed.

Lemma update_at_cons2 (k : string) (rest : list string) (g : pydict → pydict)
  (d : pydict) :
  update_at (k :: "properties" :: rest) g d =
  match d !! k with
  | Some (PDict node) =>
      match node !! "properties" with
      | Some (PDict props) =>
          <[k := PDict (<["properties" := PDict (update_at rest g props)]> node)]> d
      | _ => d
      end
  | _ => d
  end.
Proof.
  cbn [update_at]. destruct (d !! k) as [[| | | | |node]|] eqn:Hd; try done.
  destruct (node !! "properties") as [[| | | | |props]|]; try done;
    by apply insert_id.
Qed.

Lemma is_nested_insert_ne (d : pydict) (k k' : string) (v : pyval) :
  k ≠ k' → is_nested (<[k' := v]> d) k = is_nested d k.
Proof. intros Hk. unfold is_nested. by rewrite lookup_insert_ne. Qed.

Lemma is_nested_insert_properties (d node : pydict) (k : string) (v : pyval) :
  d !! k = Some (PDict node) →
  is_nested (<[k := PDict (<["properties" := v]> node)]> d) k = is_nested d k.
Proof.
  intros Hd. unfold is_nested. rewrite lookup_insert_eq, Hd.
  by rewrite lookup_insert_ne.
Qed.

(** A change [g] made through a reference keeps a path nested when [g]
    itself keeps nested the paths that start where the reference points. *)
Lemma update_at_keeps_nested (g : pydict → pydict)
  (ok : list string → string → Prop) :
  (∀ d pks k, ok pks k → nested_at d (expand pks) k = true →
              nested_at (g d) (expand pks) k = true) →
  ∀ ks d pks k,
    (∀ pks', pks = ks ++ pks' → ok pks' k) →
    nested_at d (expand pks) k = true →
    nested_at (update_at (expand ks) g d) (expand pks) k = true.
Proof.
  intros Hbase ks. induction ks as [|k1 ks IH]; intros d pks k Hok Hn.
  - apply Hbase; [by apply Hok | done].
  - cbn [expand]. rewrite update_at_cons2.
    destruct (d !! k1) as [[| | | | |node]|] eqn:Hd; try done.
    destruct (node !! "properties") as [[| | | | |props]|] eqn:Hprops; try done.
    destruct pks as [|p1 pks].
    + rewrite nested_at_nil in *. destruct (decide (k = k1)) as [->|Hk].
      * by rewrite is_nested_insert_properties.
      * by rewrite is_nested_insert_ne.
    + rewrite nested_at_cons in *. destruct (decide (p1 = k1)) as [->|Hp].
      * rewrite lookup_insert_eq, lookup_insert_eq.
        rewrite Hd, Hprops in Hn. apply IH; [| done].
        intros pks' ->. by apply Hok.
      * by rewrite lookup_insert_ne.
Qed.

Lemma insert_keeps_nested (subkey : string) (v : pyval) (d : pydict)
  (pks : list string) (k : string) :
  head (pks ++ [k]) ≠ Some subkey →
  nested_at d (expand pks) k = true →
  nested_at (<[subkey := v]> d) (expand pks) k = true.
Proof.
  intros Hhead. destruct pks as [|p pks].
  - rewrite !nested_at_nil. rewrite is_nested_insert_ne; [done |].
    intros ->. by apply Hhead.
  - rewrite !nested_at_cons. rewrite lookup_insert_ne; [done |].
    intros ->. by apply Hhead.
Qed.

Lemma setdefault_keeps_nested (key : string) (d : pydict) (pks : list string)
  (k : string) :
  nested_at d (expand pks) k = true →
  nested_at (update_at [key] setdefault_properties d) (expand pks) k = true.
Proof.
  cbn [update_at]. destruct (d !! key) as [[| | | | |node]|] eqn:Hd; try done.
  unfold setdefault_properties.
  destruct (node !! "properties") as [v|] eqn:Hprops.
  - by rewrite insert_id.
  - destruct pks as [|p pks].
    + rewrite !nested_at_nil. destruct (decide (k = key)) as [->|Hk].
      * by rewrite is_nested_insert_properties.
      * by rewrite is_nested_insert_ne.
    + rewrite !nested_at_cons. destruct (decide (p = key)) as [->|Hp].
      * by rewrite Hd, Hprops.
      * by rewrite lookup_insert_ne.
Qed.

Lemma walk_keeps_nested (segs : list string) (res : pydict) (ks : list string)
  (curkey : option string) (pks : list string) (k : string) :
  nested_at res (expand pks) k = true →
  nested_at (walk segs res (expand ks) curkey).1.1 (expand pks) k = true.
Proof.
  revert res ks curkey.
  induction segs as [|seg segs IH]; intros res ks curkey Hn; [done |].
  cbn [walk]. destruct (is_nested _ _).
  - replace (expand ks ++ [compound curkey seg; "properties"])
      with (expand (ks ++ [compound curkey seg]))
      by (by rewrite expand_app).
    apply IH. rewrite update_at_app.
    apply (update_at_keeps_nested _ (fun _ _ => True)); [| done | done].
    intros d pks' k' _. apply setdefault_keeps_nested.
  - by apply IH.
Qed.

Lemma join_dot_cons (k : string) (l : list string) :
  l ≠ [] → join_dot (k :: l) = k +:+ "." +:+ join_dot l.
Proof. by destruct l. Qed.

Lemma join_dot_merge (ks : list string) (a b : string) :
  join_dot (ks ++ [a; b]) = join_dot (ks ++ [a +:+ "." +:+ b]).
Proof.
  induction ks as [|k ks IH]; [done |].
  rewrite <- !app_comm_cons, !join_dot_cons, IH; [done | |];
    by destruct ks.
Qed.

Lemma compound_join (curkey : option string) (seg rest : string) :
  compound curkey (seg +:+ "." +:+ rest) = compound curkey seg +:+ "." +:+ rest.
Proof.
  destruct curkey as [ck|]; unfold compound; [| done].
  by rewrite !string_app_assoc3.
Qed.

(** The reference and the key [walk] ends with spell the name it was
    given. *)
Lemma walk_name (segs : list string) (res : pydict) (ks : list string)
  (curkey : option string) (last : string) :
  ∃ ks',
    (walk segs res (expand ks) curkey).1.2 = expand ks' ∧
    join_dot (ks' ++ [compound (walk segs res (expand ks) curkey).2 last]) =
    join_dot (ks ++ [compound curkey (join_dot (segs ++ [last]))]).
Proof.
  revert res ks curkey.
  induction segs as [|seg segs IH]; intros res ks curkey.
  - by exists ks.
  - cbn [walk].
    assert (Hjoin : join_dot ((seg :: segs) ++ [last]) =
                    seg +:+ "." +:+ join_dot (segs ++ [last])).
    { rewrite <- app_comm_cons. apply join_dot_cons. by destruct segs. }
    rewrite Hjoin, compound_join. destruct (is_nested _ _).
    + replace (expand ks ++ [compound curkey seg; "properties"])
        with (expand (ks ++ [compound curkey seg]))
        by (by rewrite expand_app).
      destruct (IH (update_at (expand ks ++ [compound curkey seg])
                      setdefault_properties res)
                   (ks ++ [compound curkey seg]) None) as (ks' & Hcur & Hname).
      exists ks'. split; [done |]. rewrite Hname.
      rewrite <- app_assoc. cbn [app compound]. apply join_dot_merge.
    + destruct (IH res ks (Some (compound curkey seg))) as (ks' & Hcur & Hname).
      exists ks'. split; [done |]. by rewrite Hname.
Qed.

Lemma target_name (res : pydict) (fld : string) :
  ∃ ks, (target res fld).1 = expand ks ∧
        join_dot (ks ++ [(target res fld).2]) = fld.
Proof.
  unfold target.
  destruct (walk_name (removelast (split_dot fld)) res [] None
              (List.last (split_dot fld) EmptyString)) as (ks & Hcur & Hname).
  cbn [expand] in Hcur, Hname.
  destruct (walk (removelast (split_dot fld)) res [] None) as [[res1 cur] curkey].
  simpl in *. exists ks. split; [done |].
  rewrite Hname, removelast_last_split. cbn [app compound join_dot].
  apply join_split_dot.
Qed.

Lemma declare_nested_kept (fldtype : string) (res : pydict) (fld : string)
  (pks : list string) (k : string) :
  nested_at res (expand pks) k = true →
  (∀ pre, pre ≠ [] → pre `prefix_of` pks ++ [k] → fld ≠ join_dot pre) →
  nested_at (declare fldtype res fld) (expand pks) k = true.
Proof.
  intros Hn Hfld.
  destruct (target_name res fld) as (ks & Hcur & Hname).
  unfold declare. unfold target in Hcur, Hname.
  pose proof (walk_keeps_nested (removelast (split_dot fld)) res [] None pks k Hn)
    as Hwalk.
  cbn [expand] in Hwalk.
  destruct (walk (removelast (split_dot fld)) res [] None) as [[res1 cur] curkey].
  simpl in Hcur, Hname, Hwalk. subst cur.
  apply (update_at_keeps_nested _
           (fun pks' k' => head (pks' ++ [k']) ≠
              Some (compound curkey (List.last (split_dot fld) EmptyString))));
    [| | done].
  - intros d pks' k' Hhead. by apply insert_keeps_nested.
  - intros pks' -> Hhead. apply (Hfld (ks ++ [compound curkey
                                   (List.last (split_dot fld) EmptyString)])).
    + by destruct ks.
    + rewrite <- app_assoc.
      destruct pks' as [|p pks']; simpl in Hhead; injection Hhead as ->.
      * exists []. by rewrite app_nil_r.
      * exists (pks' ++ [k]). by rewrite <- !app_assoc.
    + by rewrite Hname.
Qed.

(** Declaring a field keeps nested every path that is nested, unless the
    field's name is the name of that path or of a path above it. *)
Theorem declare_keeps_nested (fldtype : string) (res : pydict) (fld : string)
  (pks : list string) (k : string) :
  nested_at res (expand pks) k = true →
  (∀ pre, pre ≠ [] → pre `prefix_of` pks ++ [k] → fld ≠ join_dot pre) →
  nested_at (declare fldtype res fld) (expand pks) k = true.
Proof.
  intros Hn Hfld.
  destruct (target_name res fld) as (ks & Hcur & Hname).
  unfold declare. unfold target in Hcur, Hname.
  pose proof (walk_keeps_nested (removelast (split_dot fld)) res [] None pks k Hn)
    as Hwalk.
  cbn [expand] in Hwalk.
  destruct (walk (removelast (split_dot fld)) res [] None) as [[res1 cur] curkey].
  simpl in Hcur, Hname, Hwalk. subst cur.
  apply (update_at_keeps_nested _
           (fun pks' k' => head (pks' ++ [k']) ≠
              Some (compound curkey (List.last (split_dot fld) EmptyString))));
    [| | done].
  - intros d pks' k' Hhead. by apply insert_keeps_nested.
  - intros pks' -> Hhead. apply (Hfld (ks ++ [compound curkey
                                   (List.last (split_dot fld) EmptyString)])).
    + by destruct ks.
    + rewrite <- app_assoc.
      destruct pks' as [|p pks']; simpl in Hhead; injection Hhead as ->.
      * exists []. by rewrite app_nil_r.
      * exists (pks' ++ [k]). by rewrite <- !app_assoc.
    + by rewrite Hname.
Qed.

(** *** The mapping of the active index *)

Lemma fold_declare_nested_kept (fldtype : string) (flds : list string)
  (res : pydict) (pks : list string) (k : string) :
  nested_at res (expand pks) k = true →
  (∀ fld pre, fld ∈ flds → pre ≠ [] → pre `prefix_of` pks ++ [k] →
              fld ≠ join_dot pre) →
  nested_at (fold_left (declare fldtype) flds res) (expand pks) k = true.
Proof.
  revert res. induction flds as [|fld flds IH]; intros res Hn Hflds; [done |].
  simpl. apply IH.
  - apply declare_nested_kept; [done |].
    intros pre Hpre Hprefix. apply Hflds; [by left | done | done].
  - intros fld' pre Hin. apply Hflds. by right.
Qed.

Lemma prefix_of_ports (pre : list string) :
  pre ≠ [] → pre `prefix_of` ["ports"] → join_dot pre = "ports".
Proof.
  intros Hne [rest Hrest]. destruct pre as [|a [|b pre]]; [done | |].
  - by injection Hrest as <-.
  - by destruct rest.
Qed.

Lemma prefix_of_ports_scripts (pre : list string) :
  pre ≠ [] → pre `prefix_of` ["ports"; "scripts"] →
  join_dot pre = "ports" ∨ join_dot pre = "ports.scripts".
Proof.
  intros Hne [rest Hrest]. destruct pre as [|a [|b [|c pre]]]; [done | | |].
  - injection Hrest as <- _. by left.
  - injection Hrest as <- <- _. by right.
  - by destruct rest.
Qed.

Lemma walk_below (segs : list string) (res : pydict) (k1 : string)
  (rest : list string) (curkey : option string) (k : string) :
  k ≠ k1 →
  (∃ rest', (walk segs res (k1 :: rest) curkey).1.2 = k1 :: rest') ∧
  (walk segs res (k1 :: rest) curkey).1.1 !! k = res !! k.
Proof.
  intros Hk. revert res rest curkey.
  induction segs as [|seg segs IH]; intros res rest curkey.
  - split; [by eexists | done].
  - cbn [walk]. destruct (is_nested _ _); [| apply IH].
    rewrite <- !app_comm_cons.
    destruct (IH (update_at (k1 :: rest ++ [compound curkey seg])
                    setdefault_properties res)
                 (rest ++ [compound curkey seg; "properties"]) None)
      as [Hcur Hlook].
    split; [exact Hcur |]. rewrite Hlook. cbn [update_at].
    destruct (res !! k1) as [[| | | | |sub]|]; try done.
    by rewrite lookup_insert_ne.
Qed.

Lemma walk_top (segs : list string) (res : pydict) (curkey : option string)
  (k : string) :
  is_nested res k = false →
  ((walk segs res [] curkey).1.2 = [] ∧ (walk segs res [] curkey).1.1 = res) ∨
  (∃ k1 rest, (walk segs res [] curkey).1.2 = k1 :: rest ∧ k1 ≠ k ∧
              (walk segs res [] curkey).1.1 !! k = res !! k).
Proof.
  intros Hflat. revert curkey.
  induction segs as [|seg segs IH]; intros curkey; [by left |].
  cbn [walk dict_at default]. change (id res) with res.
  destruct (is_nested res (compound curkey seg)) eqn:Hn; [| apply IH].
  right. cbn [app].
  assert (Hk : k ≠ compound curkey seg) by congruence.
  destruct (walk_below segs
              (update_at [compound curkey seg] setdefault_properties res)
              (compound curkey seg) ["properties"] None k Hk)
    as [[rest' Hcur] Hlook].
  exists (compound curkey seg), rest'. split; [done |]. split; [done |].
  rewrite Hlook. cbn [update_at].
  destruct (res !! compound curkey seg) as [[| | | | |sub]|]; try done.
  by rewrite lookup_insert_ne.
Qed.

Lemma declare_flat_kept (fldtype : string) (res : pydict) (fld k : string) :
  fldtype ≠ "nested" → is_nested res k = false →
  is_nested (declare fldtype res fld) k = false.
Proof.
  intros Htype Hflat. unfold declare.
  destruct (walk_top (removelast (split_dot fld)) res None k Hflat)
    as [[Hcur Hres] | (k1 & rest & Hcur & Hk & Hlook)];
    destruct (walk (removelast (split_dot fld)) res [] None)
      as [[res1 cur] curkey]; simpl in *; subst; cbn [update_at].
  - destruct (decide (k = compound curkey (List.last (split_dot fld) EmptyString)))
      as [->|Hne].
    + unfold is_nested. rewrite lookup_insert_eq, lookup_singleton_eq.
      apply String.eqb_neq. exact Htype.
    + by rewrite is_nested_insert_ne.
  - unfold is_nested in *.
    destruct (res1 !! k1) as [[| | | | |sub]|]; try (by rewrite Hlook).
    rewrite lookup_insert_ne by done. by rewrite Hlook.
Qed.

(** Only a declaration of type [nested] makes a key of the tree nested: a
    key that is not nested is not nested after a field of another type is
    declared. *)
Theorem declare_keeps_flat (fldtype : string) (res : pydict) (fld k : string) :
  fldtype ≠ "nested" → is_nested res k = false →
  is_nested (declare fldtype res fld) k = false.
Proof.
  intros Htype Hflat. unfold declare.
  destruct (walk_top (removelast (split_dot fld)) res None k Hflat)
    as [[Hcur Hres] | (k1 & rest & Hcur & Hk & Hlook)];
    destruct (walk (removelast (split_dot fld)) res [] None)
      as [[res1 cur] curkey]; simpl in *; subst; cbn [update_at].
  - destruct (decide (k = compound curkey (List.last (split_dot fld) EmptyString)))
      as [->|Hne].
    + unfold is_nested. rewrite lookup_insert_eq, lookup_singleton_eq.
      apply String.eqb_neq. exact Htype.
    + by rewrite is_nested_insert_ne.
  - unfold is_nested in *.
    destruct (res1 !! k1) as [[| | | | |sub]|]; try (by rewrite Hlook).
    rewrite lookup_insert_ne by done. by rewrite Hlook.
Qed.

Lemma fold_declare_flat_kept (fldtype : string) (flds : list string)
  (res : pydict) (k : string) :
  fldtype ≠ "nested" → is_nested res k = false →
  is_nested (fold_left (declare fldtype) flds res) k = false.
Proof.
  intros Htype. revert res.
  induction flds as [|fld flds IH]; intros res Hflat; [done |].
  simpl. apply IH. by apply declare_flat_kept.
Qed.

Lemma declare_flat_key (fldtype : string) (res : pydict) (a b : string) :
  has_char dot a = false → has_char dot b = false →
  is_nested res a = false →
  declare fldtype res (a +:+ "." +:+ b) =
  <[a +:+ "." +:+ b := leaf fldtype]> res.
Proof.
  intros Ha Hb Hflat. unfold declare. rewrite split_dot_split_on.
  change (a +:+ "." +:+ b) with (a +:+ String dot b).
  rewrite split_on_first, split_on_none by done.
  cbn [removelast List.last walk compound dict_at default].
  change (id res) with res. by rewrite Hflat.
Qed.

(** In the mapping of the active index [ports] is nested and, in its
    properties, [scripts] is nested, whatever the address and datetime
    fields are, as long as none of them is named [ports] or
    [ports.scripts]; and the coordinates are a [geo_point] under the key
    [infos.coordinates]. *)
Theorem active_mapping_nested `{Utils} (ipaddr_fields : list string) :
  "ports" ∉ ipaddr_fields ++ datetime_fields →
  "ports.scripts" ∉ ipaddr_fields ++ datetime_fields →
  nested_at (active_mapping ipaddr_fields) [] "ports" = true ∧
  nested_at (active_mapping ipaddr_fields) (expand ["ports"]) "scripts" = true ∧
  active_mapping ipaddr_fields !! "infos.coordinates" = Some (leaf "geo_point").
Proof.
  intros Hports Hscripts.
  rewrite elem_of_app in Hports, Hscripts.
  unfold active_mapping, _create_mappings. cbn [fold_left].
  set (res0 := fold_left (declare "nested") nested_fields
                 (fold_left (declare "nested") nested_fields ∅)).
  assert (H0 : nested_at res0 (expand []) "ports" = true)
    by (vm_compute; reflexivity).
  assert (H1 : nested_at res0 (expand ["ports"]) "scripts" = true)
    by (vm_compute; reflexivity).
  assert (H2 : is_nested res0 "infos" = false) by (vm_compute; reflexivity).
  clearbody res0.
  assert (Hok0 : ∀ fld pre, fld ∈ ipaddr_fields ++ datetime_fields ++ ["infos.coordinates"] →
            pre ≠ [] → pre `prefix_of` [] ++ ["ports"] → fld ≠ join_dot pre).
  { intros fld pre Hin Hpre Hprefix. rewrite (prefix_of_ports pre Hpre Hprefix).
    intros ->. rewrite !elem_of_app in Hin.
    destruct Hin as [?|[?|Hin]]; [tauto | tauto |].
    apply list_elem_of_singleton in Hin. discriminate. }
  assert (Hok1 : ∀ fld pre, fld ∈ ipaddr_fields ++ datetime_fields ++ ["infos.coordinates"] →
            pre ≠ [] → pre `prefix_of` ["ports"] ++ ["scripts"] → fld ≠ join_dot pre).
  { intros fld pre Hin Hpre Hprefix.
    rewrite !elem_of_app in Hin.
    destruct (prefix_of_ports_scripts pre Hpre Hprefix) as [-> | ->];
      intros ->; (destruct Hin as [?|[?|Hin]]; [tauto | tauto |]);
      apply list_elem_of_singleton in Hin; discriminate. }
  assert (Hlast : "infos.coordinates" ∈
            ipaddr_fields ++ datetime_fields ++ ["infos.coordinates"]).
  { rewrite !elem_of_app. right. right. by left. }
  split; [| split].
  - apply (declare_nested_kept _ _ _ []); [| intros pre; by apply Hok0].
    apply (fold_declare_nested_kept _ _ _ []);
      [| intros fld pre Hin; apply Hok0; rewrite !elem_of_app; tauto].
    apply (fold_declare_nested_kept _ _ _ []); [exact H0 |].
    intros fld pre Hin; apply Hok0; rewrite !elem_of_app; tauto.
  - apply (declare_nested_kept _ _ _ ["ports"]); [| intros pre; by apply Hok1].
    apply (fold_declare_nested_kept _ _ _ ["ports"]);
      [| intros fld pre Hin; apply Hok1; rewrite !elem_of_app; tauto].
    apply (fold_declare_nested_kept _ _ _ ["ports"]); [exact H1 |].
    intros fld pre Hin; apply Hok1; rewrite !elem_of_app; tauto.
  - rewrite (declare_flat_key "geo_point" _ "infos" "coordinates");
      [apply lookup_insert_eq | done | done |].
    apply fold_declare_flat_kept; [done |].
    by apply fold_declare_flat_kept.
Qed.

Lemma active_mapping_nested_witness :
  nested_at (@active_mapping sample_utils ["addr"; "ports.state_reason_ip"])
    (expand ["ports"]) "scripts" = true.
Proof.
  apply (@active_mapping_nested sample_utils ["addr"; "ports.state_reason_ip"]).
  - intros Hin. repeat (apply elem_of_cons in Hin as [Hin|Hin]; [discriminate |]).
    by apply not_elem_of_nil in Hin.
  - intros Hin. repeat (apply elem_of_cons in Hin as [Hin|Hin]; [discriminate |]).
    by apply not_elem_of_nil in Hin.
Defined.

(** ** Schema Builder: the order of the nested paths *)

Lemma update_at_ext (path : list string) (f g : pydict → pydict) (res : pydict) :
  (∀ d, dict_at path res = Some d → f d = g d) →
  update_at path f res = update_at path g res.
Proof.
  revert res. induction path as [|k path IH]; intros res Hfg.
  - simpl. by apply Hfg.
  - simpl in *. destruct (res !! k) as [[| | | | |sub]|]; try done.
    by rewrite (IH sub).
Qed.

Lemma update_at_compose (path : list string) (f g : pydict → pydict)
  (res : pydict) :
  update_at path g (update_at path f res) =
  update_at path (fun d => g (f d)) res.
Proof.
  revert res. induction path as [|k path IH]; intros res; [done |].
  simpl. destruct (res !! k) as [[| | | | |sub]|] eqn:Hk; simpl;
    rewrite ?Hk; try done.
  by rewrite lookup_insert_eq, insert_insert_eq, IH.
Qed.

Lemma is_nested_node (d : pydict) (k : string) :
  is_nested d k = true →
  ∃ node, d !! k = Some (PDict node) ∧ node !! "type" = Some (PStr "nested").
Proof.
  unfold is_nested. destruct (d !! k) as [[| | | | |node]|]; try done.
  destruct (node !! "type") as [[| | |t| |]|] eqn:Ht; try done.
  intros ->%String.eqb_eq. by exists node.
Qed.

Lemma props_run_type (f : pydict → pydict) (node : pydict) :
  props_run f node !! "type" = node !! "type".
Proof.
  unfold props_run.
  destruct (node !! "properties") as [[| | | | |props]|]; try done;
    by rewrite lookup_insert_ne.
Qed.

Lemma is_nested_props_run (d node : pydict) (k : string) (f : pydict → pydict) :
  d !! k = Some (PDict node) →
  is_nested (<[k := PDict (props_run f node)]> d) k = is_nested d k.
Proof.
  intros Hk. unfold is_nested.
  by rewrite lookup_insert_eq, Hk, props_run_type.
Qed.

Lemma props_run_setdefault (f : pydict → pydict) (d node : pydict) (k : string) :
  d !! k = Some (PDict node) →
  update_at [k; "properties"] f (update_at [k] setdefault_properties d) =
  <[k := PDict (props_run f node)]> d.
Proof.
  intros Hk. cbn [update_at]. rewrite Hk, lookup_insert_eq.
  unfold setdefault_properties, props_run.
  destruct (node !! "properties") as [[| | | | |props]|] eqn:Hp;
    rewrite ?Hp, ?lookup_insert_eq, ?insert_insert_eq; try done.
Qed.

(** The loop body of [_create_mappings] is [declare_in] at the dict the
    cursor points to. *)
Lemma walk_declare_in (fldtype last : string) (segs : list string)
  (res : pydict) (cur : list string) (curkey : option string) :
  update_at (walk segs res cur curkey).1.2
    (insert (compound (walk segs res cur curkey).2 last)
            (PDict {["type" := PStr fldtype]}))
    (walk segs res cur curkey).1.1 =
  update_at cur (declare_in fldtype last segs curkey) res.
Proof.
  revert res cur curkey.
  induction segs as [|seg rest IH]; intros res cur curkey; [done |].
  cbn [walk].
  destruct (is_nested (default ∅ (dict_at cur res)) (compound curkey seg))
    eqn:Hn.
  - rewrite IH.
    rewrite !update_at_app, update_at_compose.
    apply update_at_ext. intros d Hd. rewrite Hd in Hn. simpl in Hn.
    cbn [declare_in]. rewrite Hn.
    destruct (is_nested_node _ _ Hn) as (node & Hk & _).
    rewrite Hk. by apply props_run_setdefault.
  - rewrite IH. apply update_at_ext. intros d Hd.
    rewrite Hd in Hn. simpl in Hn. cbn [declare_in]. by rewrite Hn.
Qed.

Lemma declare_in_spec (fldtype : string) (res : pydict) (fld : string) :
  declare fldtype res fld =
  declare_in fldtype (List.last (split_dot fld) EmptyString)
    (removelast (split_dot fld)) None res.
Proof.
  unfold declare.
  pose proof (walk_declare_in fldtype (List.last (split_dot fld) EmptyString)
                (removelast (split_dot fld)) res [] None) as Hw.
  destruct (walk (removelast (split_dot fld)) res [] None) as [[res1 cur] ck].
  exact Hw.
Qed.

Lemma append_inj_r (k a b : string) : k +:+ a = k +:+ b → a = b.
Proof.
  induction k as [|c k IH]; [done |].
  change (String c (k +:+ a) = String c (k +:+ b) → a = b).
  intros [= Heq]. by apply IH.
Qed.

Lemma string_length_append (a b : string) :
  String.length (a +:+ b) = (String.length a + String.length b)%nat.
Proof.
  induction a as [|c a IH]; [done |].
  change (Datatypes.S (String.length (a +:+ b)) =
          Datatypes.S (String.length a + String.length b)).
  by rewrite IH.
Qed.

Lemma final_key_cons (curkey : option string) (seg : string)
  (rest : list string) (last : string) :
  final_key curkey (seg :: rest) last =
  final_key (Some (compound curkey seg)) rest last.
Proof. reflexivity. Qed.

Lemma final_key_some (k : string) (segs : list string) (last : string) :
  final_key (Some k) segs last = k +:+ "." +:+ final_key None segs last.
Proof.
  revert k. induction segs as [|seg rest IH]; intros k; [done |].
  rewrite !final_key_cons, (IH (compound (Some k) seg)), (IH (compound None seg)).
  unfold compound. by rewrite !string_app_assoc3.
Qed.

Lemma prefixes_from_some (k : string) (segs : list string) :
  prefixes_from (Some k) segs =
  (fun x => k +:+ "." +:+ x) <$> prefixes_from None segs.
Proof.
  revert k. induction segs as [|seg rest IH]; intros k; [done |].
  cbn [prefixes_from fmap list_fmap].
  rewrite (IH (compound (Some k) seg)), (IH (compound None seg)).
  rewrite <- list_fmap_compose. f_equal.
  apply list_fmap_ext. intros _ x _. unfold compound. simpl.
  by rewrite !string_app_assoc3.
Qed.

(** The key of a path is the path itself when no prefix is nested. *)
Lemma final_key_split (fld : string) :
  final_key None (removelast (split_dot fld))
    (List.last (split_dot fld) EmptyString) = fld.
Proof.
  pose proof (accumulate_join (split_dot fld) None (split_dot_nonempty fld)) as Hacc.
  rewrite <- (removelast_last_split fld) in Hacc at 1.
  unfold accumulate in Hacc. rewrite fold_left_app in Hacc. simpl in Hacc.
  rewrite join_split_dot in Hacc. unfold final_key, accumulate.
  by injection Hacc.
Qed.

(** A key looked up on the way is a proper prefix of the key written at
    the end. *)
Lemma prefixes_from_shorter (curkey : option string) (segs : list string)
  (last k : string) :
  k ∈ prefixes_from curkey segs →
  (String.length k < String.length (final_key curkey segs last))%nat.
Proof.
  revert curkey. induction segs as [|seg rest IH]; intros curkey.
  - by intros ?%not_elem_of_nil.
  - cbn [prefixes_from]. rewrite final_key_cons.
    intros [->|Hin]%elem_of_cons; [| by apply IH].
    rewrite final_key_some, string_length_append. simpl. lia.
Qed.

Lemma dotted_prefixes_shorter (fld k : string) :
  k ∈ dotted_prefixes fld → (String.length k < String.length fld)%nat.
Proof.
  intros Hk.
  rewrite <- (final_key_split fld) at 1. by apply prefixes_from_shorter.
Qed.

Lemma declare_in_cons (fldtype last seg : string) (rest : list string)
  (curkey : option string) (cur : pydict) :
  declare_in fldtype last (seg :: rest) curkey cur =
  if is_nested cur (compound curkey seg) then
    match cur !! compound curkey seg with
    | Some (PDict node) =>
        <[compound curkey seg :=
            PDict (props_run (declare_in fldtype last rest None) node)]> cur
    | _ => cur
    end
  else declare_in fldtype last rest (Some (compound curkey seg)) cur.
Proof. reflexivity. Qed.

Lemma declare_in_nil (fldtype last : string) (curkey : option string)
  (cur : pydict) :
  declare_in fldtype last [] curkey cur =
  <[compound curkey last := PDict {["type" := PStr fldtype]}]> cur.
Proof. reflexivity. Qed.

(** Whether a key is nested is changed by a declaration at that key
    only. *)
Lemma is_nested_declare_in (fldtype last : string) (segs : list string)
  (curkey : option string) (cur : pydict) (k : string) :
  k ≠ final_key curkey segs last →
  is_nested (declare_in fldtype last segs curkey cur) k = is_nested cur k.
Proof.
  revert curkey. induction segs as [|seg rest IH]; intros curkey Hk.
  - cbn [declare_in]. by apply is_nested_insert_ne.
  - rewrite declare_in_cons.
    destruct (is_nested cur (compound curkey seg)) eqn:Hn; [| by apply IH].
    destruct (is_nested_node _ _ Hn) as (node & Hnode & _). rewrite Hnode.
    destruct (decide (k = compound curkey seg)) as [->|Hne].
    + by apply is_nested_props_run.
    + by apply is_nested_insert_ne.
Qed.

(** A declaration leaves alone the keys it neither looks up nor writes. *)
Lemma declare_in_insert (fldtype last : string) (segs : list string)
  (curkey : option string) (cur : pydict) (x : string) (v : pyval) :
  x ∉ prefixes_from curkey segs → x ≠ final_key curkey segs last →
  declare_in fldtype last segs curkey (<[x := v]> cur) =
  <[x := v]> (declare_in fldtype last segs curkey cur).
Proof.
  revert curkey. induction segs as [|seg rest IH]; intros curkey Hpre Hfin.
  - cbn [declare_in]. by apply insert_insert_ne.
  - cbn [prefixes_from] in Hpre. apply not_elem_of_cons in Hpre as [Hne Hpre].
    rewrite !declare_in_cons, is_nested_insert_ne by done.
    rewrite lookup_insert_ne by done.
    destruct (is_nested cur (compound curkey seg)) eqn:Hn; [| by apply IH].
    destruct (cur !! compound curkey seg) as [[| | | | |node]|]; try done.
    by apply insert_insert_ne.
Qed.

Lemma props_run_comm (f g : pydict → pydict) (node : pydict) :
  (∀ props, f (g props) = g (f props)) →
  props_run f (props_run g node) = props_run g (props_run f node).
Proof.
  intros Hfg. unfold props_run.
  destruct (node !! "properties") as [[| | | | |props]|] eqn:Hp;
    rewrite ?Hp, ?lookup_insert_eq, ?insert_insert_eq, ?Hfg; done.
Qed.

Lemma declare_in_flat_step (fldtype last seg : string) (rest : list string)
  (curkey : option string) (cur : pydict) :
  is_nested cur (compound curkey seg) = false →
  declare_in fldtype last (seg :: rest) curkey cur =
  declare_in fldtype last rest (Some (compound curkey seg)) cur.
Proof. intros Hn. by rewrite declare_in_cons, Hn. Qed.

Lemma declare_in_nested_step (fldtype last seg : string) (rest : list string)
  (curkey : option string) (cur node : pydict) :
  is_nested cur (compound curkey seg) = true →
  cur !! compound curkey seg = Some (PDict node) →
  declare_in fldtype last (seg :: rest) curkey cur =
  <[compound curkey seg :=
      PDict (props_run (declare_in fldtype last rest None) node)]> cur.
Proof. intros Hn Hnode. by rewrite declare_in_cons, Hn, Hnode. Qed.

(** Two declarations commute when they write different keys and neither
    writes a key the other one looks up. *)
Lemma declare_in_comm (n : nat) :
  ∀ (segsP segsQ : list string),
    (length segsP + length segsQ ≤ n)%nat →
    ∀ (tP tQ lastP lastQ : string) (ckP ckQ : option string) (cur : pydict),
      final_key ckP segsP lastP ≠ final_key ckQ segsQ lastQ →
      final_key ckP segsP lastP ∉ prefixes_from ckQ segsQ →
      final_key ckQ segsQ lastQ ∉ prefixes_from ckP segsP →
      declare_in tP lastP segsP ckP (declare_in tQ lastQ segsQ ckQ cur) =
      declare_in tQ lastQ segsQ ckQ (declare_in tP lastP segsP ckP cur).
Proof.
  induction n as [|n IH]; intros segsP segsQ Hlen tP tQ lastP lastQ ckP ckQ cur
    Hne HPQ HQP.
  - destruct segsP; [| simpl in Hlen; lia].
    destruct segsQ; [| simpl in Hlen; lia].
    cbn [declare_in]. by apply insert_insert_ne.
  - destruct segsP as [|sp rp].
    { rewrite !(declare_in_nil tP lastP ckP). symmetry.
      by apply declare_in_insert. }
    destruct segsQ as [|sq rq].
    { rewrite !(declare_in_nil tQ lastQ ckQ). by apply declare_in_insert. }
    set (kp := compound ckP sp). set (kq := compound ckQ sq).
    assert (HkpQ : kp ≠ final_key ckQ (sq :: rq) lastQ).
    { intros Heq. apply HQP. rewrite <- Heq. by left. }
    assert (HkqP : kq ≠ final_key ckP (sp :: rp) lastP).
    { intros Heq. apply HPQ. rewrite <- Heq. by left. }
    destruct (is_nested cur kq) eqn:HnQ; cycle 1.
    { rewrite (declare_in_flat_step tQ lastQ sq rq ckQ cur HnQ).
      rewrite (declare_in_flat_step tQ lastQ sq rq ckQ
                 (declare_in tP lastP (sp :: rp) ckP cur)).
      - apply IH; [simpl in *; lia | done | |].
        + intros Hin. apply HPQ. by right.
        + done.
      - fold kq. rewrite is_nested_declare_in; done. }
    destruct (is_nested cur kp) eqn:HnP; cycle 1.
    { rewrite (declare_in_flat_step tP lastP sp rp ckP cur HnP).
      rewrite (declare_in_flat_step tP lastP sp rp ckP
                 (declare_in tQ lastQ (sq :: rq) ckQ cur)).
      - apply IH; [simpl in *; lia | done | done |].
        intros Hin. apply HQP. by right.
      - fold kp. rewrite is_nested_declare_in; done. }
    destruct (is_nested_node _ _ HnP) as (nodeP & HnodeP & _).
    destruct (is_nested_node _ _ HnQ) as (nodeQ & HnodeQ & _).
    rewrite (declare_in_nested_step tQ lastQ sq rq ckQ cur nodeQ HnQ HnodeQ).
    rewrite (declare_in_nested_step tP lastP sp rp ckP cur nodeP HnP HnodeP).
    fold kp kq.
    destruct (decide (kp = kq)) as [Heq|Hkk].
    + assert (nodeP = nodeQ) as -> by (rewrite Heq in HnodeP; congruence).
      rewrite (declare_in_nested_step tP lastP sp rp ckP _
                 (props_run (declare_in tQ lastQ rq None) nodeQ)); cycle 1.
      { fold kp. rewrite Heq. by rewrite is_nested_props_run. }
      { fold kp. rewrite Heq. apply lookup_insert_eq. }
      rewrite (declare_in_nested_step tQ lastQ sq rq ckQ _
                 (props_run (declare_in tP lastP rp None) nodeQ)); cycle 1.
      { fold kq. rewrite <- Heq. rewrite is_nested_props_run; [done |].
        by rewrite Heq. }
      { fold kq. rewrite Heq. apply lookup_insert_eq. }
      fold kp kq. rewrite Heq, !insert_insert_eq. f_equal. f_equal.
      apply props_run_comm. intros props.
      assert (HfP : final_key ckP (sp :: rp) lastP =
                    kq +:+ "." +:+ final_key None rp lastP).
      { rewrite final_key_cons, final_key_some. fold kp. by rewrite Heq. }
      assert (HfQ : final_key ckQ (sq :: rq) lastQ =
                    kq +:+ "." +:+ final_key None rq lastQ).
      { by rewrite final_key_cons, final_key_some. }
      rewrite HfP, HfQ in Hne. rewrite HfP in HPQ. rewrite HfQ in HQP.
      apply IH; [simpl in *; lia | | |].
      * intros Hsub. apply Hne. by rewrite Hsub.
      * intros Hin. apply HPQ. cbn [prefixes_from]. right. fold kq.
        rewrite prefixes_from_some.
        apply list_elem_of_fmap. eexists. split; [reflexivity | exact Hin].
      * intros Hin. apply HQP. cbn [prefixes_from]. right. fold kp.
        rewrite Heq, prefixes_from_some.
        apply list_elem_of_fmap. eexists. split; [reflexivity | exact Hin].
    + rewrite (declare_in_nested_step tP lastP sp rp ckP _ nodeP); cycle 1.
      { fold kp. by rewrite is_nested_insert_ne. }
      { fold kp. by rewrite lookup_insert_ne. }
      rewrite (declare_in_nested_step tQ lastQ sq rq ckQ _ nodeQ); cycle 1.
      { fold kq. by rewrite is_nested_insert_ne. }
      { fold kq. by rewrite lookup_insert_ne. }
      fold kp kq. by apply insert_insert_ne.
Qed.

(** Two declarations of paths neither of which lies below the other
    commute. *)
Lemma declare_comm (tP tQ : string) (res : pydict) (p q : string) :
  p ≠ q → p ∉ dotted_prefixes q → q ∉ dotted_prefixes p →
  declare tP (declare tQ res q) p = declare tQ (declare tP res p) q.
Proof.
  intros Hne Hpq Hqp. rewrite !declare_in_spec.
  apply (declare_in_comm _ _ _ (Nat.le_refl _)); rewrite !final_key_split; done.
Qed.

Lemma ancestors_first_cons (fld : string) (l : list string) :
  ancestors_first (fld :: l) = true ↔
  (∀ later, later ∈ l → later ∉ dotted_prefixes fld) ∧
  ancestors_first l = true.
Proof.
  cbn [ancestors_first]. rewrite andb_true_iff, forallb_forall.
  split; intros [Hall Hrest]; (split; [| done]).
  - intros later Hin%list_elem_of_In. specialize (Hall later Hin).
    by apply negb_true_iff, bool_decide_eq_false in Hall.
  - intros later Hin%list_elem_of_In.
    apply negb_true_iff, bool_decide_eq_false. by apply Hall.
Qed.

Lemma ancestors_first_app (a b : list string) :
  ancestors_first (a ++ b) = true →
  ancestors_first b = true ∧
  ∀ y z, y ∈ a → z ∈ b → z ∉ dotted_prefixes y.
Proof.
  induction a as [|x a IH]; intros Haf.
  - split; [done |]. by intros y z ?%not_elem_of_nil.
  - rewrite <- app_comm_cons in Haf.
    apply ancestors_first_cons in Haf as [Hx Hrest].
    destruct (IH Hrest) as [Hb Hab]. split; [done |].
    intros y z [->|Hy]%elem_of_cons Hz.
    + apply Hx. apply elem_of_app. by right.
    + by apply Hab.
Qed.

Lemma ancestors_first_remove (a : list string) (x : string) (b : list string) :
  ancestors_first (a ++ x :: b) = true → ancestors_first (a ++ b) = true.
Proof.
  induction a as [|y a IH]; intros Haf.
  - by apply ancestors_first_cons in Haf as [_ ?].
  - rewrite <- app_comm_cons in Haf |- *.
    apply ancestors_first_cons in Haf as [Hy Hrest].
    apply ancestors_first_cons. split; [| by apply IH].
    intros later [?|?]%elem_of_app; apply Hy; apply elem_of_app;
      [by left | right; by right].
Qed.

(** Paths none of which lies below another are ancestors-first in any
    order. *)
Lemma unrelated_ancestors_first (l : list string) :
  unrelated l = true → ancestors_first l = true.
Proof.
  intros Hun.
  assert (Hall : ∀ fld p, fld ∈ l → p ∈ dotted_prefixes fld → p ∉ l)
    by (intros fld p; apply unrelated_spec, Hun).
  clear Hun. induction l as [|x l IH]; [done |].
  apply ancestors_first_cons. split.
  - intros later Hin Hpre. apply (Hall x later); [by left | done | by right].
  - apply IH. intros fld p Hfld Hp Hin.
    apply (Hall fld p); [by right | done | by right].
Qed.

(** A declaration moves before the declarations of paths that are neither
    above nor below its path. *)
Lemma fold_declare_move (fldtype : string) (pre : list string) (x : string)
  (res : pydict) :
  (∀ y, y ∈ pre → (y ∉ dotted_prefixes x) ∧ (x ∉ dotted_prefixes y)) →
  declare fldtype (fold_left (declare fldtype) pre res) x =
  fold_left (declare fldtype) pre (declare fldtype res x).
Proof.
  revert res. induction pre as [|y pre IH]; intros res Hpre; [done |].
  cbn [fold_left]. rewrite IH; [| intros z Hz; apply Hpre; by right].
  f_equal. destruct (decide (x = y)) as [->|Hne]; [done |].
  destruct (Hpre y) as [Hyx Hxy]; [by left |].
  by apply declare_comm.
Qed.

(** Two orders of the same paths give the same tree when, in each of them,
    every path comes after the paths it lies below. *)
Lemma fold_declare_ancestors_first (fldtype : string) (l1 l2 : list string)
  (res : pydict) :
  l1 ≡ₚ l2 → ancestors_first l1 = true → ancestors_first l2 = true →
  fold_left (declare fldtype) l1 res = fold_left (declare fldtype) l2 res.
Proof.
  revert l2 res. induction l1 as [|x t IH]; intros l2 res Hperm Haf1 Haf2.
  - apply Permutation_nil in Hperm. by subst.
  - assert (Hx : x ∈ l2) by (rewrite <- Hperm; by left).
    apply list_elem_of_split in Hx as (pre & post & ->).
    apply Permutation_cons_app_inv in Hperm as Hperm'.
    apply ancestors_first_cons in Haf1 as [Hlater Haf1].
    destruct (ancestors_first_app _ _ Haf2) as [_ Hbefore].
    rewrite fold_left_app. cbn [fold_left].
    rewrite fold_declare_move.
    + rewrite <- fold_left_app. apply IH; [done | done |].
      by apply ancestors_first_remove in Haf2.
    + intros y Hy. split.
      * destruct (decide (y = x)) as [->|Hne].
        -- intros Hin%dotted_prefixes_shorter. lia.
        -- apply Hlater. rewrite Hperm'. apply elem_of_app. by left.
      * apply (Hbefore y x); [done | by left].
Qed.

Lemma split_dot_append (a b : string) :
  split_dot (a +:+ "." +:+ b) = split_dot a ++ split_dot b.
Proof.
  induction a as [|c a IH]; [done |].
  change (String c a +:+ "." +:+ b) with (String c (a +:+ "." +:+ b)).
  cbn [split_dot]. rewrite IH.
  destruct (Ascii.eqb c dot); [done |].
  destruct (split_dot a) as [|h t] eqn:Ha; [by destruct (split_dot_nonempty a) |].
  done.
Qed.

Lemma removelast_app_nonempty {A} (l1 l2 : list A) :
  l2 ≠ [] → removelast (l1 ++ l2) = l1 ++ removelast l2.
Proof. intros Hne. by apply removelast_app. Qed.

Lemma last_app_nonempty {A} (l1 l2 : list A) (d : A) :
  l2 ≠ [] → List.last (l1 ++ l2) d = List.last l2 d.
Proof.
  intros Hne. induction l1 as [|x l1 IH]; [done |].
  rewrite <- app_comm_cons. cbn [List.last].
  destruct (l1 ++ l2) eqn:Happ; [| done].
  apply app_eq_nil in Happ as [_ ->]. done.
Qed.

Lemma declare_in_app_flat (fldtype last : string) (segs rest : list string)
  (curkey : option string) (cur : pydict) :
  (∀ k, k ∈ prefixes_from curkey segs → is_nested cur k = false) →
  declare_in fldtype last (segs ++ rest) curkey cur =
  declare_in fldtype last rest (accumulate curkey segs) cur.
Proof.
  revert curkey. induction segs as [|seg segs IH]; intros curkey Hflat; [done |].
  rewrite <- app_comm_cons, declare_in_flat_step.
  - apply IH. intros k Hk. apply Hflat. by right.
  - apply Hflat. by left.
Qed.

Lemma is_nested_singleton_ne (k k' : string) (v : pyval) :
  k ≠ k' → is_nested {[k' := v]} k = false.
Proof. intros Hne. apply is_nested_absent. by apply lookup_singleton_ne. Qed.

Lemma append_longer (a b : string) : a ≠ a +:+ "." +:+ b.
Proof.
  intros Heq. apply (f_equal String.length) in Heq.
  rewrite string_length_append in Heq. simpl in Heq. lia.
Qed.

(** A path declared after a path it lies below lands in the properties of
    that path. *)
Lemma declare_parent_first (parent rest : string) :
  _create_mappings [parent; parent +:+ "." +:+ rest] [] =
  {[parent := nested_with {[rest := leaf "nested"]}]}.
Proof.
  unfold _create_mappings. cbn [fold_left].
  rewrite (declare_flat "nested" ∅ parent) by (intros; apply lookup_empty).
  rewrite insert_empty, declare_in_spec, split_dot_append.
  rewrite removelast_app_nonempty, last_app_nonempty
    by apply split_dot_nonempty.
  rewrite <- (removelast_last_split parent) at 1. rewrite <- app_assoc.
  rewrite declare_in_app_flat; cycle 1.
  { intros k Hk. apply is_nested_singleton_ne.
    apply dotted_prefixes_shorter in Hk. intros ->. lia. }
  cbn [app].
  change (compound (accumulate None (removelast (split_dot parent)))
            (List.last (split_dot parent) EmptyString))
    with (final_key None (removelast (split_dot parent))
            (List.last (split_dot parent) EmptyString)) in *.
  rewrite (declare_in_nested_step "nested" _ _ _ _ _ {["type" := PStr "nested"]});
    change (compound (accumulate None (removelast (split_dot parent)))
              (List.last (split_dot parent) EmptyString))
      with (final_key None (removelast (split_dot parent))
              (List.last (split_dot parent) EmptyString));
    rewrite ?final_key_split.
  - rewrite insert_singleton_eq. unfold nested_with, props_run.
    rewrite lookup_singleton_ne by done.
    rewrite <- declare_in_spec.
    rewrite (declare_flat "nested" ∅ rest) by (intros; apply lookup_empty).
    by rewrite insert_empty.
  - unfold is_nested, leaf. rewrite lookup_singleton_eq.
    by rewrite lookup_singleton_eq.
  - unfold leaf. apply lookup_singleton_eq.
Qed.

(** A path declared before a path it lies below stays a key of its own. *)
Lemma declare_parent_last (parent rest : string) :
  _create_mappings [parent +:+ "." +:+ rest; parent] [] =
  <[parent := leaf "nested"]> {[parent +:+ "." +:+ rest := leaf "nested"]}.
Proof.
  unfold _create_mappings. cbn [fold_left].
  rewrite (declare_flat "nested" ∅ (parent +:+ "." +:+ rest))
    by (intros; apply lookup_empty).
  rewrite insert_empty. apply declare_flat.
  intros p Hp%dotted_prefixes_shorter. apply lookup_singleton_ne.
  intros Heq. rewrite <- Heq, string_length_append in Hp. lia.
Qed.

(** C2, as the code has it: the mapping tree is the same for two orders of
    the nested paths when, in each of them, every path comes after the
    paths of the list it lies below, whatever the typed fields declared
    afterwards; this holds of every order when no path lies below another
    one.  A path lands in the properties of a path it lies below only when
    that path was declared before it: declared after it, the path is
    nested in it; declared before it, the path stays a key of its own
    beside it, and the two trees differ.  So [ports] then [ports.scripts]
    gives the nested tree, and [ports.scripts] then [ports] gives two keys
    side by side. *)
Theorem create_mappings_ancestors_first :
  (∀ (l1 l2 : list string) (all_mappings : list (string * list string)),
     l1 ≡ₚ l2 → ancestors_first l1 = true → ancestors_first l2 = true →
     _create_mappings l1 all_mappings = _create_mappings l2 all_mappings) ∧
  (∀ (l1 l2 : list string) (all_mappings : list (string * list string)),
     unrelated l1 = true → l1 ≡ₚ l2 →
     _create_mappings l1 all_mappings = _create_mappings l2 all_mappings) ∧
  (∀ parent rest : string,
     _create_mappings [parent; parent +:+ "." +:+ rest] [] =
       {[parent := nested_with {[rest := leaf "nested"]}]} ∧
     _create_mappings [parent +:+ "." +:+ rest; parent] [] =
       <[parent := leaf "nested"]>
         {[parent +:+ "." +:+ rest := leaf "nested"]} ∧
     _create_mappings [parent; parent +:+ "." +:+ rest] [] ≠
       _create_mappings [parent +:+ "." +:+ rest; parent] []) ∧
  _create_mappings ["ports"; "ports.scripts"] [] =
    {["ports" := nested_with {["scripts" := leaf "nested"]}]} ∧
  _create_mappings ["ports.scripts"; "ports"] [] =
    <["ports.scripts" := leaf "nested"]> {["ports" := leaf "nested"]}.
Proof.
  assert (Hgen : ∀ (l1 l2 : list string)
                   (all_mappings : list (string * list string)),
            l1 ≡ₚ l2 → ancestors_first l1 = true → ancestors_first l2 = true →
            _create_mappings l1 all_mappings = _create_mappings l2 all_mappings).
  { intros l1 l2 all_mappings Hperm Haf1 Haf2. unfold _create_mappings.
    f_equal. by apply fold_declare_ancestors_first. }
  split; [exact Hgen |]. split; [| split].
  - intros l1 l2 all_mappings Hun Hperm. apply Hgen; [done | |].
    + by apply unrelated_ancestors_first.
    + by apply unrelated_ancestors_first, (unrelated_perm l1).
  - intros parent rest.
    split; [apply declare_parent_first |].
    split; [apply declare_parent_last |].
    rewrite declare_parent_first, declare_parent_last. intros Heq.
    apply (f_equal (fun res : pydict => res !! (parent +:+ "." +:+ rest)))
      in Heq.
    rewrite lookup_singleton_ne in Heq by apply append_longer.
    rewrite lookup_insert_ne in Heq by apply append_longer.
    by rewrite lookup_singleton_eq in Heq.
  - split; vm_compute; reflexivity.
Qed.

Lemma create_mappings_ancestors_first_witness :
  ["ports"; "ports.scripts"; "addr"] ≡ₚ ["addr"; "ports"; "ports.scripts"] ∧
  ancestors_first ["ports"; "ports.scripts"; "addr"] = true ∧
  ancestors_first ["addr"; "ports"; "ports.scripts"] = true ∧
  unrelated ["ports"; "ports.scripts"; "addr"] = false ∧
  _create_mappings ["ports"; "ports.scripts"; "addr"] [("ip", ["addr"])] =
  _create_mappings ["addr"; "ports"; "ports.scripts"] [("ip", ["addr"])] ∧
  _create_mappings ["ports"; "addr"; "ports.scripts"] [("ip", ["addr"])] =
  _create_mappings ["addr"; "ports"; "ports.scripts"] [("ip", ["addr"])].
Proof.
  assert (Hperm : ["ports"; "ports.scripts"; "addr"] ≡ₚ
                  ["addr"; "ports"; "ports.scripts"]).
  { change ["ports"; "ports.scripts"; "addr"]
      with (["ports"; "ports.scripts"] ++ ["addr"]).
    apply Permutation_app_comm. }
  assert (Hperm' : ["ports"; "addr"; "ports.scripts"] ≡ₚ
                   ["addr"; "ports"; "ports.scripts"])
    by apply perm_swap.
  split; [exact Hperm |]. split; [reflexivity |]. split; [reflexivity |].
  split; [reflexivity |]. split.
  - apply (proj1 create_mappings_ancestors_first);
      [exact Hperm | reflexivity | reflexivity].
  - apply (proj1 create_mappings_ancestors_first);
      [exact Hperm' | reflexivity | reflexivity].
Defined.

(** C2, as stated, fails: a path processed before the path it lies below is
    kept as a key of its own. *)
Lemma create_mappings_order_counterexample :
  _create_mappings ["ports.scripts"; "ports"] [] ≠
  _create_mappings ["ports"; "ports.scripts"] [].
Proof.
  intros Heq. apply (f_equal (fun res : pydict => res !! "ports.scripts")) in Heq.
  vm_compute in Heq. discriminate.
Qed.

(** ** Predicate Builder, further *)

Section PredicateMore.
Context `{Utils}.

(** The builders other than [searchhost] honour [neg]: with [neg=True]
    they return a predicate that holds exactly on the documents on which
    the predicate of [neg=False] does not, and they raise what the call
    with [neg=False] raises. *)
Theorem builders_negate (atom : Query → bool) :
  holds atom (searchhaslocation true) =
    negb (holds atom (searchhaslocation false)) ∧
  (∀ country, holds atom (searchcountry country true) =
              negb (holds atom (searchcountry country false))) ∧
  (∀ asname, holds atom (searchasname asname true) =
             negb (holds atom (searchasname asname false))) ∧
  (∀ asnum,
     match searchasnum asnum false, searchasnum asnum true with
     | Ok q, Ok q' => holds atom q' = negb (holds atom q)
     | Raise e, Raise e' => e = e'
     | _, _ => False
     end) ∧
  (∀ name output values,
     match searchscript name output values false,
           searchscript name output values true with
     | Ok q, Ok q' => holds atom q' = negb (holds atom q)
     | Raise e, Raise e' => e = e'
     | _, _ => False
     end).
Proof.
  split; [done |]. split; [done |]. split; [done |]. split.
  - intros asnum. unfold searchasnum.
    destruct (iter_values asnum) as [vals|].
    + by destruct (mapM_result py_int vals).
    + by destruct (py_int asnum).
  - intros name output values. unfold searchscript.
    by destruct (searchscript_req name output values).
Qed.

Lemma strpat_req_triple (field : string) (arg : strpat) :
  is_triple (strpat_req field arg).
Proof. by destruct arg. Qed.

Lemma values_req_triple (subfield : string) (values : script_values) :
  (∀ q, values ≠ VQuery q) → Forall is_triple (values_req subfield values).
Proof.
  intros Hq. destruct values as [q| | |items]; simpl.
  - by destruct (Hq q).
  - by repeat constructor.
  - by repeat constructor.
  - apply Forall_fmap, Forall_forall. intros [field [r|v]] _; done.
Qed.

(** Unless [values] is itself a query, every condition [searchscript] puts
    in the inner query is on a field under [ports.scripts.]; without any
    condition the inner query is the existence of [ports.scripts]. *)
Theorem searchscript_fields_scoped (name output : option strpat)
  (values : option script_values) (q : Query) :
  (∀ vq, values ≠ Some (VQuery vq)) →
  searchscript name output values false = Ok q →
  ∃ inner,
    q = Nested "ports" (Nested "ports.scripts" inner) ∧
    (inner = Q "exists" "field" (PStr "ports.scripts") ∨
     conjuncts inner ≠ [] ∧
     Forall (fun c => ∃ kind field value,
                        c = Q kind field value ∧
                        String.prefix "ports.scripts." field = true)
       (conjuncts inner)).
Proof.
  intros Hvq. unfold searchscript.
  destruct (searchscript_req name output values) as [req|e] eqn:Hreq; [| done].
  simpl. intros [= <-].
  assert (Hall : Forall is_triple req).
  { unfold searchscript_req in Hreq.
    destruct name as [n|], output as [o|], values as [v|]; simpl in Hreq;
      try done; injection Hreq as <-;
      repeat first
        [ apply Forall_app; split
        | apply Forall_cons; split
        | apply Forall_nil
        | apply strpat_req_triple
        | apply values_req_triple; intros vq ->; by apply (Hvq vq)
        | exact I ]. }
  destruct req as [|r req]; [eexists; split; [done | by left] |].
  eexists. split; [done |]. right. rewrite conjuncts_conjoin.
  split; [done |]. apply Forall_fmap. eapply Forall_impl; [exact Hall |].
  intros [kind field value|sq]; [| done]. intros _. simpl.
  eexists _, _, _. split; [done |]. apply prefix_append.
Qed.

End PredicateMore.

Lemma builders_negate_witness :
  holds (fun _ => true) (@searchcountry sample_utils (PStr "FR") true) = false.
Proof.
  destruct (@builders_negate sample_utils (fun _ => true)) as (_ & Hcountry & _).
  by rewrite Hcountry.
Defined.

Lemma searchscript_fields_scoped_witness :
  ∃ inner,
    @searchscript sample_utils (Some (Lit "http-title")) (Some (Re {| re_pattern := "nginx"; re_flags := 0 |}))
      None false = Ok (Nested "ports" (Nested "ports.scripts" inner)) ∧
    conjuncts inner ≠ [].
Proof.
  destruct (@searchscript_fields_scoped sample_utils (Some (Lit "http-title"))
              (Some (Re {| re_pattern := "nginx"; re_flags := 0 |})) None
              (Nested "ports" (Nested "ports.scripts"
                 (And (And MatchAll (Q "match" "ports.scripts.id" (PStr "http-title")))
                      (Q "regexp" "ports.scripts.output" (PStr ".*nginx.*"))))))
    as (inner & Hq & Hinner).
  - intros vq. discriminate.
  - reflexivity.
  - exists inner. injection Hq as <-. split; [reflexivity | discriminate].
Defined.

(** ** Witnesses *)


Lemma store_host_twice_witness :
  ∃ body idx1,
    @store_host sample_engine paris [] = Ok (body, idx1) ∧
    coordinates body = Some (PList [PInt 2; PInt 48]) ∧
    @store_host sample_engine body idx1 =
      Ok (paris, [{| _id := "0"; _source := body |};
                  {| _id := "1"; _source := paris |}]).
Proof.
  destruct (@store_host_twice sample_engine paris [] eq_refl)
    as (body & idx1 & Hfirst & Hsecond).
  exists body, idx1. split; [exact Hfirst |]. split.
  - injection Hfirst as <- _. reflexivity.
  - rewrite Hsecond. injection Hfirst as _ <-. reflexivity.
Defined.

Lemma store_host_rejects_witness :
  @store_host sample_engine
    {["infos" := PDict {["coordinates" := PInt 48]}]} [] =
  Raise (TypeError "object is not subscriptable").
Proof.
  destruct (@store_host_rejects sample_engine
              {["infos" := PDict {["coordinates" := PInt 48]}]} [])
    as [Hcoords _].
  by apply (Hcoords {["coordinates" := PInt 48]} (PInt 48)).
Defined.

Lemma get_one_per_record_witness :
  ∃ found,
    @get sample_utils sample_engine MatchAll None
      [{| _id := "0"; _source := paris |}; {| _id := "1"; _source := ∅ |}] =
      (found, None) ∧
    length found = 2%nat.
Proof.
  destruct (@get_one_per_record sample_utils sample_engine MatchAll
              [{| _id := "0"; _source := paris |}; {| _id := "1"; _source := ∅ |}])
    as (found & Hget & Hids).
  - by repeat constructor.
  - intros Hin. repeat (apply elem_of_cons in Hin as [Hin|Hin]; [discriminate |]).
    by apply not_elem_of_nil in Hin.
  - exists found. split; [exact Hget |].
    apply Forall2_length in Hids. by rewrite <- Hids.
Defined.

Lemma store_get_remove_witness :
  ∃ body fetched,
    @store_host sample_engine paris [] = Ok (body, @index_doc sample_engine [] body) ∧
    @get_host sample_utils {| _id := "0"; _source := body |} = Ok fetched ∧
    remove fetched (@index_doc sample_engine [] body) = Removed [].
Proof.
  destruct (@store_get_remove sample_utils sample_engine paris [])
    as (body & fetched & Hstore & Hget & Hremove).
  - reflexivity.
  - intros Hin. repeat (apply elem_of_cons in Hin as [Hin|Hin]; [discriminate |]).
    by apply not_elem_of_nil in Hin.
  - apply not_elem_of_nil.
  - exists body, fetched. split; [exact Hstore |]. split; [exact Hget | exact Hremove].
Defined.

Lemma distinct_goes_on_witness :
  ended (@distinct sample_utils nat (sample_client as_pages [])
           1 "infos.as_num" None 0%nat) = Suspended.
Proof.
  apply (@distinct_goes_on sample_utils nat (sample_client as_pages [])
           1 "infos.as_num" None 0%nat).
  intros k Hk. assert (k = 0%nat) as -> by lia. split; [discriminate | done].
Defined.


Lemma topvalues_filter_narrows_witness :
  holds (fun _ => true) (default flt_empty (Some (searchhaslocation false))) = true.
Proof.
  apply (@topvalues_filter_narrows sample_utils (fun _ => true) "port:open"
           (Some (searchhaslocation false)) 10).
  reflexivity.
Defined.

Lemma topvalues_size_outside_nested_witness :
  terms_size (@topvalues_body sample_utils "httphdr:server" None 5) =
  Some (PInt 5).
Proof. by apply (@topvalues_size_outside_nested sample_utils). Defined.

Lemma topvalues_raw_keys_witness :
  (@topvalues sample_utils nat (sample_client [] header_buckets)
     "infos.country_code" None 2 0%nat).1 =
  ([ <["_id" := PStr "server"]> {["count" := PInt 9]};
     <["_id" := PStr "date"]> {["count" := PInt 8]} ], None) ∧
  (@topvalues sample_utils nat (sample_client [] header_buckets)
     "httphdr:Server" None 1 0%nat).1 =
  ([ <["_id" := PStr "server"]> {["count" := PInt 9]} ], None).
Proof.
  split.
  - rewrite (@topvalues_raw_keys sample_utils nat
               (sample_client [] header_buckets)) by reflexivity.
    vm_compute. reflexivity.
  - rewrite (@topvalues_raw_keys sample_utils nat
               (sample_client [] header_buckets)) by reflexivity.
    vm_compute. reflexivity.
Defined.

Lemma outputproc_first_separator_witness :
  outputproc_httphdr (PStr "location:http://example/") =
    Ok (PList [PStr "location"; PStr "http://example/"]) ∧
  @outputproc_as sample_utils (PStr "15169, GOOGLE, US") =
    Ok (PList [PInt 15169; PStr "GOOGLE, US"]).
Proof.
  destruct (@outputproc_first_separator sample_utils) as (Hhdr & Has & _).
  split.
  - by apply (Hhdr "location" "http://example/").
  - by apply (Has "15169" "GOOGLE, US" 15169).
Defined.

Lemma outputproc_edge_cases_witness :
  @outputproc_port sample_utils (PStr "tcp") = Ok (PList [PStr "tcp"]) ∧
  @outputproc_port sample_utils (PStr "tcp/http") =
    Raise (ValueError "invalid literal for int() with base 10") ∧
  @outputproc_as sample_utils (PInt 15169) =
    Raise (AttributeError "object has no attribute 'split'").
Proof.
  destruct (@outputproc_edge_cases sample_utils)
    as (Hone & _ & Hport & _ & Hkey & _).
  split; [by apply Hone |]. split; [by apply (Hport "tcp" "http") |].
  apply (Hkey (PInt 15169) I). by left.
Defined.

Lemma declare_keeps_nested_witness :
  nested_at (declare "date" (_create_mappings ["ports"; "ports.scripts"] [])
               "ports.scripts.ssl-cert.not_after")
    (expand ["ports"]) "scripts" = true.
Proof.
  apply declare_keeps_nested; [reflexivity |].
  intros pre Hpre Hprefix.
  destruct (prefix_of_ports_scripts pre Hpre Hprefix) as [-> | ->]; discriminate.
Defined.

Lemma declare_keeps_flat_witness :
  is_nested (declare "ip" {["ports" := leaf "nested"]} "addr") "addr" = false.
Proof. apply declare_keeps_flat; [discriminate | reflexivity]. Defined.

(** ** Creation of the indexes *)







(** ** Header names *)

Section HeaderNames.
Context `{Utils}.

Lemma dispatch_httphdr_name (name : string) (flt : option Query) :
  topvalues_dispatch ("httphdr:" +:+ name) flt =
  {| d_flt := and_script (default flt_empty flt)
       (Some (VItems [("name", FVal (PStr (lower name)))]));
     d_field := painless script_httphdr_name
       (Some {["name" := PStr (lower name)]});
     d_nested := None;
     d_outputproc := None |}.
Proof.
  unfold topvalues_dispatch.
  change (String.eqb ("httphdr:" +:+ name) "asnum") with false.
  change (String.eqb ("httphdr:" +:+ name) "as") with false.
  change (String.eqb ("httphdr:" +:+ name) "port") with false.
  change (String.prefix "port:" ("httphdr:" +:+ name)) with false.
  change (String.eqb ("httphdr:" +:+ name) "httphdr") with false.
  change (String.prefix "httphdr." ("httphdr:" +:+ name)) with false.
  change (String.prefix "httphdr:" ("httphdr:" +:+ name))
    with (String.prefix "" name).
  change (string_drop 8 ("httphdr:" +:+ name)) with name.
  by destruct name.
Qed.

Lemma lower_char_idem (c : Ascii.ascii) :
  lower_char (lower_char c) = lower_char c.
Proof.
  unfold lower_char. cbv zeta.
  destruct (Nat.leb 65 (nat_of_ascii c) && Nat.leb (nat_of_ascii c) 90)%bool
    eqn:Hc; [| by rewrite Hc].
  apply andb_prop in Hc as [Hlo%Nat.leb_le Hhi%Nat.leb_le].
  rewrite nat_ascii_embedding by lia.
  destruct (Nat.leb 65 (nat_of_ascii c + 32)
            && Nat.leb (nat_of_ascii c + 32) 90)%bool eqn:Hc'; [| done].
  apply andb_prop in Hc' as [_ Hhi'%Nat.leb_le]. lia.
Qed.

Lemma lower_idem (s : string) : lower (lower s) = lower s.
Proof.
  induction s as [|c s IH]; [done |]. simpl. by rewrite lower_char_idem, IH.
Qed.

(** The name of a header in the pseudo-field [httphdr:<name>] is taken
    without regard to case: two names that differ only in the case of
    their letters give the same request, and the name sent to the engine,
    in the filter and in the script, is in lower case. *)
Theorem topvalues_header_case (name name' : string) (flt : option Query)
  (topnbr : Z) :
  lower name = lower name' →
  topvalues_body ("httphdr:" +:+ name) flt topnbr =
    topvalues_body ("httphdr:" +:+ name') flt topnbr ∧
  topvalues_body ("httphdr:" +:+ name) flt topnbr =
    topvalues_body ("httphdr:" +:+ lower name) flt topnbr.
Proof.
  intros Hlower. unfold topvalues_body.
  rewrite !dispatch_httphdr_name, lower_idem. by rewrite Hlower.
Qed.

End HeaderNames.

Lemma topvalues_header_case_witness :
  @topvalues_body sample_utils "httphdr:Server" None 10 =
  @topvalues_body sample_utils "httphdr:SERVER" None 10.
Proof.
  apply (@topvalues_header_case sample_utils "Server" "SERVER" None 10).
  reflexivity.
Defined.
